(** * Xenon: threshold evaluation and infraction counting

    A shallow embedding of [xenon/core.py]:
    [build_blocks_to_ignore], [av], [check] and [find_infractions].

    Conventions of the embedding.
    - Python [str] values are [string]s of ASCII characters; [int]s are [Z].
    - Python [float]s are IEEE 754 doubles: the [spec_float] of the standard
      library at precision 53, with its correctly rounded addition and
      division and its comparisons.  A score is an [int] or a [float]; the
      sums and the quotients are floats.
    - The program talks to a logger object.  A run is a pair of an outcome
      (a returned value or a raised exception) and the ordered list of calls
      it made on the logger, each call holding the format string and the
      arguments exactly as the program passes them.
    - [radon.complexity.cc_rank] is an external function; the evaluator is
      parametrised by it. *)

From Stdlib Require Import String Ascii ZArith List Bool Lia DecimalString SpecFloat.
From stdpp Require Import gmap strings list fin_maps.
Import ListNotations.

Local Open Scope string_scope.
Local Open Scope list_scope.
Local Open Scope Z_scope.

(** ** Python string primitives *)

Module PyStr.

(** The double quote character, for format strings that contain it. *)
Definition dq : string := String (ascii_of_nat 34) EmptyString.

(** [c.isspace()] for an ASCII character of a Python 3 [str]. *)
Definition isspace (c : ascii) : bool :=
  let n := nat_of_ascii c in
  ((9 <=? n) && (n <=? 13) || (28 <=? n) && (n <=? 32))%nat.

(** [s.lstrip()] *)
Fixpoint lstrip (s : string) : string :=
  match s with
  | EmptyString => EmptyString
  | String c s' => if isspace c then lstrip s' else s
  end.

(** [s.rstrip()] *)
Fixpoint rstrip (s : string) : string :=
  match s with
  | EmptyString => EmptyString
  | String c s' =>
      match rstrip s' with
      | EmptyString => if isspace c then EmptyString else String c EmptyString
      | r => String c r
      end
  end.

(** [s.strip()] *)
Definition strip (s : string) : string := rstrip (lstrip s).

(** [s.split(sep)] for a one-character separator: the pieces between the
    occurrences of [sep]; never the empty list. *)
Fixpoint split (sep : ascii) (s : string) : list string :=
  match s with
  | EmptyString => [EmptyString]
  | String c s' =>
      if Ascii.eqb c sep then EmptyString :: split sep s'
      else match split sep s' with
           | [] => [String c EmptyString]
           | p :: ps => String c p :: ps
           end
  end.

(** [c.upper()] on ASCII. *)
Definition upper_ascii (c : ascii) : ascii :=
  let n := nat_of_ascii c in
  if ((97 <=? n) && (n <=? 122))%nat then ascii_of_nat (n - 32) else c.

(** [s.upper()] *)
Fixpoint upper (s : string) : string :=
  match s with
  | EmptyString => EmptyString
  | String c s' => String (upper_ascii c) (upper s')
  end.

(** [a > b] on strings: lexicographic on code points. *)
Definition gt (a b : string) : bool :=
  match String.compare a b with Gt => true | _ => false end.

(** Truth value of a string: non-empty. *)
Definition truthy (s : string) : bool :=
  match s with EmptyString => false | _ => true end.

(** [x in l] for a list of strings. *)
Definition mem (x : string) (l : list string) : bool :=
  existsb (String.eqb x) l.

End PyStr.

(** ** Python numbers *)

Module Ieee.

(** Binary64: 53 bits of precision, infinities at exponent 1024. *)
Definition prec : Z := 53.
Definition emax : Z := 1024.

(** [0.] *)
Definition zero : spec_float := S754_zero false.

(** [float(z)] for an int: the nearest double, ties to even. *)
Definition of_Z (z : Z) : spec_float := binary_normalize prec emax z 0 false.

(** [x + y] and [x / y] on doubles ([y] not zero). *)
Definition add : spec_float -> spec_float -> spec_float := SFadd prec emax.
Definition div : spec_float -> spec_float -> spec_float := SFdiv prec emax.

(** [z > c] for an int and a double, decided on the exact values. *)
Definition int_gt (z : Z) (c : spec_float) : bool :=
  match c with
  | S754_nan => false
  | S754_infinity s => s
  | S754_zero _ => 0 <? z
  | S754_finite s m e =>
      let v := cond_Zopp s (Zpos m) in
      if 0 <=? e then v * 2 ^ e <? z else v <? z * 2 ^ (- e)
  end.

End Ieee.

(** The float of an int literal. *)
Definition fl (z : Z) : spec_float := Ieee.of_Z z.

Arguments Ieee.of_Z : simpl never.
Arguments Ieee.add : simpl never.
Arguments Ieee.div : simpl never.
Arguments fl : simpl never.

(** A Python number: an [int] or a [float]. *)
Inductive pynum :=
| NInt (z : Z)
| NFloat (f : spec_float).

(** [float(a)], as the addition of a float and [a] converts [a]. *)
Definition to_float (a : pynum) : spec_float :=
  match a with
  | NInt z => Ieee.of_Z z
  | NFloat f => f
  end.

(** [a > c] for a number and a float. *)
Definition num_gt (a : pynum) (c : spec_float) : bool :=
  match a with
  | NInt z => Ieee.int_gt z c
  | NFloat f => SFltb c f
  end.

(** ** Runs: outcome and logger calls *)

Inductive exn := ValueError | TypeError | ZeroDivisionError.

Inductive result (A : Type) :=
| Ret (a : A)
| Raise (e : exn).
Arguments Ret {A} a.
Arguments Raise {A} e.

Inductive level := WARNING | ERROR.

(** The values the program hands to the logger. *)
Inductive pyval :=
| PyStr (s : string)
| PyInt (z : Z)
| PyFloat (f : spec_float).

Definition pyval_of_num (a : pynum) : pyval :=
  match a with
  | NInt z => PyInt z
  | NFloat f => PyFloat f
  end.

(** One call [logger.warning(fmt, *args)] or [logger.error(fmt, *args)]. *)
Record LogCall := { lvl : level; fmt : string; fargs : list pyval }.

(** A computation: its outcome and the logger calls made, oldest first. *)
Definition M (A : Type) : Type := result A * list LogCall.

Definition ret {A} (a : A) : M A := (Ret a, []).
Definition raise {A} (e : exn) : M A := (Raise e, []).
Definition bind {A B} (m : M A) (f : A -> M B) : M B :=
  match m with
  | (Ret a, l) => let '(r, l') := f a in (r, l ++ l')
  | (Raise e, l) => (Raise e, l)
  end.

Notation "x <- c ;; k" := (bind c (fun x => k))
  (at level 100, c at next level, right associativity).
Notation "c ;;; k" := (bind c (fun _ => k))
  (at level 100, right associativity).

Definition logger_warning (f : string) (args : list pyval) : M unit :=
  (Ret tt, [{| lvl := WARNING; fmt := f; fargs := args |}]).
Definition logger_error (f : string) (args : list pyval) : M unit :=
  (Ret tt, [{| lvl := ERROR; fmt := f; fargs := args |}]).

(** [for x in xs: s = body(s, x)], the loop variables threaded as [s]. *)
Fixpoint for_each {A S} (body : S -> A -> M S) (xs : list A) (s : S) : M S :=
  match xs with
  | [] => ret s
  | x :: xs' => s' <- body s x ;; for_each body xs' s'
  end.

(** ** Data *)

(** A block dictionary of the analyser: the keys the program reads.  The
    score is a number, an int in the analyser's output. *)
Record Block := { name : string; lineno : Z; complexity : pynum }.

(** The value stored for a module: a list of block dictionaries, or the
    dictionary [{'error': err}]. *)
Inductive ModuleResult :=
| BlockList (bs : list Block)
| ErrorDict (err : string).

(** [results.items()]: the modules in iteration order. *)
Definition ResultSet := list (string * ModuleResult).

(** The attributes of [args] the program reads; [None] is Python's [None]. *)
Record Args := {
  ignore_blocks : option string;
  absolute : option string;
  modules : option string;
  average : option string;
  averagenum : option spec_float
}.

(** ** [build_blocks_to_ignore] *)

Definition ignore_entry (blocks_to_ignore : gmap string (list string))
    (block_to_ignore : string) : M (gmap string (list string)) :=
  match PyStr.split ":" block_to_ignore with
  | [module_name; block_name] =>
      let k := PyStr.strip module_name in
      ret (<[k := default [] (blocks_to_ignore !! k) ++ [PyStr.strip block_name]]>
             blocks_to_ignore)
  | _ => raise ValueError
  end.

Definition build_blocks_to_ignore (args : Args) : M (gmap string (list string)) :=
  match ignore_blocks args with
  | None => ret ∅
  | Some s =>
      if negb (PyStr.truthy s) then ret ∅
      else for_each ignore_entry (PyStr.split "," s) ∅
  end.

(** ** [av] and [check] *)

(** [n / m] on a float and an int: the int is converted to a float and the
    quotient is rounded.  The OverflowError of an int beyond the range of the
    doubles (2^1024 and above), here and in the sums, is left out: [m] is a
    block count and the scores are those of blocks of code. *)
Definition truediv (n : spec_float) (m : Z) : M spec_float :=
  if m =? 0 then raise ZeroDivisionError else ret (Ieee.div n (Ieee.of_Z m)).

(** The result is the float quotient, or the int [0]. *)
Definition av (n : spec_float) (m : Z) : M pynum :=
  if negb (m =? 0) then q <- truediv n m ;; ret (NFloat q) else ret (NInt 0).

Definition check (rank : string) (default : option string) : bool :=
  match default with
  | Some d => PyStr.gt rank (PyStr.upper d)
  | None => false
  end.

(** ** [find_infractions] *)

Definition warn_fmt : string := "cannot parse %s: %s".
Definition block_fmt : string :=
  "block " +:+ PyStr.dq +:+ "%s:%s %s" +:+ PyStr.dq +:+ " has a rank of %s".
Definition total_num_fmt : string := "total average complexity is %s".
Definition total_rank_fmt : string := "average complexity is ranked %s".
Definition module_fmt : string := "module %r has a rank of %s".

(** The variables the loop over the modules updates. *)
Record LoopState := {
  infractions : Z;
  module_averages : list (string * pynum);
  total_cc : spec_float;
  total_blocks : Z
}.

Definition len {A} (l : list A) : Z := Z.of_nat (length l).

(** Lines 76-79: the loop variables before the first module. *)
Definition init_state : LoopState :=
  {| infractions := 0; module_averages := []; total_cc := Ieee.zero; total_blocks := 0 |}.

Section Evaluator.

(** [radon.complexity.cc_rank], taken as a black box. *)
Variable cc_rank : pynum -> string.

(** Lines 86-91: the body of [for block in blocks], on the loop
    variables [(module_cc, infractions)]. *)
Definition block_body (blocks_to_ignore : gmap string (list string))
    (args : Args) (module : string) (s : spec_float * Z) (block : Block)
    : M (spec_float * Z) :=
  let module_cc := Ieee.add (fst s) (to_float (complexity block)) in
  let r := cc_rank (complexity block) in
  if check r (absolute args)
     && negb (PyStr.mem (name block) (default [] (blocks_to_ignore !! module)))
  then
    logger_error block_fmt
      [PyStr module; PyInt (lineno block); PyStr (name block); PyStr r] ;;;
    ret (module_cc, snd s + 1)
  else ret (module_cc, snd s).

(** Lines 81-94: the body of [for module, blocks in results.items()]. *)
Definition module_body (blocks_to_ignore : gmap string (list string))
    (args : Args) (st : LoopState) (item : string * ModuleResult) : M LoopState :=
  let module := fst item in
  match snd item with
  | ErrorDict err =>
      if PyStr.truthy err then
        logger_warning warn_fmt [PyStr module; PyStr err] ;;;
        ret st                                   (* continue *)
      else
        (* [for block in blocks] walks the keys of the dictionary, and
           ['error']['complexity'] is a TypeError *)
        raise TypeError
  | BlockList blocks =>
      s <- for_each (block_body blocks_to_ignore args module) blocks
             (Ieee.zero, infractions st) ;;
      ma <- av (fst s) (len blocks) ;;
      ret {| infractions := snd s;
             module_averages := module_averages st ++ [(module, ma)];
             total_cc := Ieee.add (total_cc st) (fst s);
             total_blocks := total_blocks st + len blocks |}
  end.

(** Lines 106-110: the body of [for module, ma in module_averages]. *)
Definition average_body (args : Args) (infractions : Z) (item : string * pynum) : M Z :=
  let mar := cc_rank (snd item) in
  if check mar (modules args) then
    logger_error module_fmt [PyStr (fst item); PyStr mar] ;;;
    ret (infractions + 1)
  else ret infractions.

(** Lines 96-111: what follows the loop over the modules. *)
Definition totals (args : Args) (st : LoopState) : M Z :=
  av_cc <- av (total_cc st) (total_blocks st) ;;
  let ar := cc_rank av_cc in
  i1 <- (match averagenum args with
         | Some c =>
             if num_gt av_cc c then
               logger_error total_num_fmt [pyval_of_num av_cc] ;;;
               ret (infractions st + 1)
             else ret (infractions st)
         | None => ret (infractions st)
         end) ;;
  i2 <- (if check ar (average args) then
           logger_error total_rank_fmt [PyStr ar] ;;; ret (i1 + 1)
         else ret i1) ;;
  for_each (average_body args) (module_averages st) i2.

(** Lines 76-111: [find_infractions] once the ignore map is built. *)
Definition evaluate (blocks_to_ignore : gmap string (list string))
    (args : Args) (results : ResultSet) : M Z :=
  st <- for_each (module_body blocks_to_ignore args) results init_state ;;
  totals args st.

Definition find_infractions (args : Args) (results : ResultSet) : M Z :=
  blocks_to_ignore <- build_blocks_to_ignore args ;;
  evaluate blocks_to_ignore args results.

End Evaluator.

(** Modelled from the spec: [radon.complexity.cc_rank], which is not part of
    this repository.  The spec gives the breakpoints A: 0-5, B: 6-10,
    C: 11-20, D: 21-30, E: 31-40, F: 41+. *)
Definition cc_rank (cc : pynum) : string :=
  let le (b : Z) :=
    match cc with
    | NInt z => z <=? b
    | NFloat f => SFleb f (fl b)
    end in
  if le 5 then "A"
  else if le 10 then "B"
  else if le 20 then "C"
  else if le 30 then "D"
  else if le 40 then "E"
  else "F".

Definition mkargs ign abs mods avg avgnum : Args :=
  {| ignore_blocks := ign; absolute := abs; modules := mods;
     average := avg; averagenum := avgnum |}.

(** ** What the logger prints: [fmt % args]

    The standard logger renders a call as [fmt % args].  Only the directives
    the program uses are covered ([%s], [%r], and [%%]). *)

Module PyFormat.

(** [str(z)] for an int. *)
Definition str_int (z : Z) : string := DecimalString.NilZero.string_of_int (Z.to_int z).

Definition hex_digit (n : nat) : ascii :=
  match String.get n "0123456789abcdef" with Some c => c | None => "0"%char end.

Definition has (c : ascii) (s : string) : bool :=
  existsb (Ascii.eqb c) (list_ascii_of_string s).

(** The quote [repr] picks: double quotes only when the text has a single
    quote and no double quote. *)
Definition quote_of (s : string) : ascii :=
  if has "'" s && negb (has (ascii_of_nat 34) s) then ascii_of_nat 34 else "'"%char.

Definition repr_char (q c : ascii) : string :=
  let n := nat_of_ascii c in
  if Ascii.eqb c q || Ascii.eqb c "\" then String "\" (String c EmptyString)
  else if (n =? 9)%nat then "\t"
  else if (n =? 10)%nat then "\n"
  else if (n =? 13)%nat then "\r"
  else if (n <? 32)%nat || (n =? 127)%nat then
    String "\" (String "x" (String (hex_digit (n / 16)) (String (hex_digit (n mod 16)) EmptyString)))
  else String c EmptyString.

Fixpoint repr_body (q : ascii) (s : string) : string :=
  match s with
  | EmptyString => EmptyString
  | String c s' => repr_char q c +:+ repr_body q s'
  end.

(** [repr(s)] for a str. *)
Definition repr_str (s : string) : string :=
  let q := quote_of s in
  String q (repr_body q s +:+ String q EmptyString).

(** *** The text of a float

    [repr] gives the shortest decimal digits that read back as the same
    double (the nearest to it among the shortest), laid out with an exponent
    when the decimal point falls outside of [-4 < decpt <= 16]. *)

Definition digits10 (z : Z) : Z := Z.of_nat (String.length (str_int z)).

(** [d * 10^p] against [w * 2^q], both brought to integers. *)
Definition dec_side (d p q : Z) : Z := d * 10 ^ Z.max p 0 * 2 ^ Z.max (- q) 0.
Definition bin_side (w p q : Z) : Z := w * 2 ^ Z.max q 0 * 10 ^ Z.max (- p) 0.

(** [floor (w * 2^q / 10^p)] *)
Definition floor_dec (w p q : Z) : Z := bin_side w p q / dec_side 1 p q.

(** The smallest [j >= 1] with [n * 10^j >= d], searched for [fuel] steps. *)
Fixpoint first_digit_at (fuel : nat) (n d j : Z) : Z :=
  match fuel with
  | O => j
  | S fuel' => if d <=? n * 10 then j else first_digit_at fuel' (n * 10) d (j + 1)
  end.

(** [floor (log10 (w * 2^q))] for [w > 0]. *)
Definition exp10 (w q : Z) : Z :=
  let n := w * 2 ^ Z.max q 0 in
  let d := 2 ^ Z.max (- q) 0 in
  if d <=? n then digits10 (n / d) - 1 else - first_digit_at 400 n d 1.

Fixpoint strip_zeros (fuel : nat) (d : Z) : Z :=
  match fuel with
  | O => d
  | S fuel' => if (d mod 10 =? 0) && negb (d =? 0) then strip_zeros fuel' (d / 10) else d
  end.

(** The shortest digits that read back as the float [m * 2^e], tried with
    [n], [n + 1], ... significant digits: the digits and the position of the
    decimal point ([0.digits * 10^decpt]). *)
Fixpoint shortest (fuel : nat) (m e k n : Z) : Z * Z :=
  let q := e - 2 in
  let v := 4 * m in
  let lo := v - (if (m =? 2 ^ 52) && (- 1074 <? e) then 1 else 2) in
  let hi := v + 2 in
  let p := k - n + 1 in
  let d1 := floor_dec v p q in
  let d2 := d1 + 1 in
  let inside d :=
    let c := dec_side d p q in
    let l := bin_side lo p q in
    let h := bin_side hi p q in
    if Z.even m then (l <=? c) && (c <=? h) else (l <? c) && (c <? h) in
  let pick d := (strip_zeros 20 d, digits10 d + p) in
  match fuel with
  | O => pick d1
  | S fuel' =>
      match inside d1, inside d2 with
      | true, false => pick d1
      | false, true => pick d2
      | true, true =>
          match Z.compare (2 * bin_side v p q) (dec_side (d1 + d2) p q) with
          | Lt => pick d1
          | Gt => pick d2
          | Eq => if Z.even d1 then pick d1 else pick d2
          end
      | false, false => shortest fuel' m e k (n + 1)
      end
  end.

Fixpoint zeros (n : nat) : string :=
  match n with O => EmptyString | S n' => String "0" (zeros n') end.

Definition two_digits (z : Z) : string :=
  if z <? 10 then String "0" (str_int z) else str_int z.

(** The text of a positive finite float from its shortest digits. *)
Definition layout (ds : string) (decpt : Z) : string :=
  let nd := Z.of_nat (String.length ds) in
  if (decpt <=? -4) || (16 <? decpt) then
    let x := decpt - 1 in
    let mant := match ds with
                | String c EmptyString => ds
                | String c rest => String c (String "." rest)
                | EmptyString => ds
                end in
    mant +:+ "e" +:+ (if x <? 0 then "-" else "+") +:+ two_digits (Z.abs x)
  else if decpt <=? 0 then "0." +:+ zeros (Z.to_nat (- decpt)) +:+ ds
  else if nd <=? decpt then ds +:+ zeros (Z.to_nat (decpt - nd)) +:+ ".0"
  else substring 0 (Z.to_nat decpt) ds +:+ "."
       +:+ substring (Z.to_nat decpt) (Z.to_nat (nd - decpt)) ds.

(** [repr(x)] of a float, which is also its [str]. *)
Definition repr_float (x : spec_float) : string :=
  match x with
  | S754_zero s => if s then "-0.0" else "0.0"
  | S754_infinity s => if s then "-inf" else "inf"
  | S754_nan => "nan"
  | S754_finite s m e =>
      let '(d, decpt) := shortest 17 (Zpos m) e (exp10 (4 * Zpos m) (e - 2)) 1 in
      (if s then "-" else "") +:+ layout (str_int d) decpt
  end.

(** [str(a)] for a number. *)
Definition str_num (a : pynum) : string :=
  match a with
  | NInt z => str_int z
  | NFloat f => repr_float f
  end.

(** [%s] *)
Definition conv_s (v : pyval) : option string :=
  match v with
  | PyStr s => Some s
  | PyInt z => Some (str_int z)
  | PyFloat f => Some (repr_float f)
  end.

(** [%r] *)
Definition conv_r (v : pyval) : option string :=
  match v with
  | PyStr s => Some (repr_str s)
  | PyInt z => Some (str_int z)
  | PyFloat f => Some (repr_float f)
  end.

Definition directive (conv : pyval -> option string) (args : list pyval)
    (k : list pyval -> option string) : option string :=
  match args with
  | [] => None                       (* not enough arguments *)
  | v :: args' =>
      match conv v, k args' with
      | Some t, Some rest => Some (t +:+ rest)
      | _, _ => None
      end
  end.

Fixpoint format (f : string) (args : list pyval) : option string :=
  match f with
  | EmptyString => match args with [] => Some EmptyString | _ => None end
  | String c f' =>
      if Ascii.eqb c "%" then
        match f' with
        | String d f'' =>
            if Ascii.eqb d "s" then directive conv_s args (format f'')
            else if Ascii.eqb d "r" then directive conv_r args (format f'')
            else if Ascii.eqb d "%" then
              option_map (String "%") (format f'' args)
            else None
        | EmptyString => None
        end
      else option_map (String c) (format f' args)
  end.

(** The message of a logger call. *)
Definition message (c : LogCall) : option string := format (fmt c) (fargs c).

End PyFormat.

(** The average as a value: what [av] returns. *)
Definition av_value (n : spec_float) (m : Z) : pynum :=
  if m =? 0 then NInt 0 else NFloat (Ieee.div n (Ieee.of_Z m)).

(** ** The logger calls of the program *)

Definition warn_call (module err : string) : LogCall :=
  {| lvl := WARNING; fmt := warn_fmt; fargs := [PyStr module; PyStr err] |}.
Definition block_call (module : string) (b : Block) (r : string) : LogCall :=
  {| lvl := ERROR; fmt := block_fmt;
     fargs := [PyStr module; PyInt (lineno b); PyStr (name b); PyStr r] |}.
Definition total_num_call (av_cc : pynum) : LogCall :=
  {| lvl := ERROR; fmt := total_num_fmt; fargs := [pyval_of_num av_cc] |}.
Definition total_rank_call (ar : string) : LogCall :=
  {| lvl := ERROR; fmt := total_rank_fmt; fargs := [PyStr ar] |}.
Definition module_call (module mar : string) : LogCall :=
  {| lvl := ERROR; fmt := module_fmt; fargs := [PyStr module; PyStr mar] |}.

Definition is_error (c : LogCall) : bool :=
  match lvl c with ERROR => true | WARNING => false end.
Definition is_warning (c : LogCall) : bool := negb (is_error c).
Definition has_fmt (f : string) (c : LogCall) : bool := String.eqb (fmt c) f.

(** A test on a call that reads only its format string and its level. *)
Definition sel (q : string -> level -> bool) (c : LogCall) : bool := q (fmt c) (lvl c).

Definition kind (f : string) (l : level) (c : LogCall) : Prop := fmt c = f /\ lvl c = l.

(** The score total of a module, summed as the loop does. *)
Definition module_cc_of (bs : list Block) : spec_float :=
  fold_left (fun acc b => Ieee.add acc (to_float (complexity b))) bs Ieee.zero.

(** An error dictionary the program recognises: its text is not empty. *)
Definition recognised (item : string * ModuleResult) : bool :=
  match snd item with
  | ErrorDict err => PyStr.truthy err
  | BlockList _ => true
  end.

Definition add_cc (t : spec_float) (item : string * ModuleResult) : spec_float :=
  match snd item with
  | BlockList bs => Ieee.add t (module_cc_of bs)
  | ErrorDict _ => t
  end.

Definition add_blocks (t : Z) (item : string * ModuleResult) : Z :=
  match snd item with
  | BlockList bs => t + len bs
  | ErrorDict _ => t
  end.

Definition module_warnings (item : string * ModuleResult) : list LogCall :=
  match snd item with
  | BlockList _ => []
  | ErrorDict err => [warn_call (fst item) err]
  end.

Definition module_average (item : string * ModuleResult) : list (string * pynum) :=
  match snd item with
  | BlockList bs => [(fst item, av_value (module_cc_of bs) (len bs))]
  | ErrorDict _ => []
  end.

(** Whole-codebase totals and average over the modules with a block list. *)
Definition codebase_cc (results : ResultSet) : spec_float :=
  fold_left add_cc results Ieee.zero.
Definition codebase_blocks (results : ResultSet) : Z := fold_left add_blocks results 0.
Definition codebase_average (results : ResultSet) : pynum :=
  av_value (codebase_cc results) (codebase_blocks results).

(** The entry [e] of an ignore specification names the block [b] of the
    module [m]: it has one colon, with [m] and [b] on its sides once these
    are stripped. *)
Definition names_entry (e m b : string) : Prop :=
  exists x y, PyStr.split ":" e = [x; y] /\ m = PyStr.strip x /\ b = PyStr.strip y.

(** [s.count(c)] *)
Fixpoint occurrences (c : ascii) (s : string) : nat :=
  match s with
  | EmptyString => 0%nat
  | String d s' => ((if Ascii.eqb d c then 1 else 0) + occurrences c s')%nat
  end.

(** An entry that unpacks into [module_name, block_name]. *)
Definition two_parts (e : string) : Prop := length (PyStr.split ":" e) = 2%nat.

(** The calls of the module-rank check, module by module: the rank is taken
    of the average of the scores. *)
Definition module_rank_calls (rk : pynum -> string) (args : Args)
    (item : string * ModuleResult) : list LogCall :=
  match snd item with
  | BlockList bs =>
      let ma := av_value (module_cc_of bs) (len bs) in
      if check (rk ma) (modules args) then [module_call (fst item) (rk ma)] else []
  | ErrorDict _ => []
  end.

(** The text of the module-rank message as the specification words it, with
    the module between double quotes. *)
Definition spec_module_message (module rank : string) : string :=
  "module " +:+ PyStr.dq +:+ module +:+ PyStr.dq +:+ " has a rank of " +:+ rank.

(** A character [repr] prints as it is between single quotes: printable, and
    neither a quote nor a backslash. *)
Definition plain_char (c : ascii) : bool :=
  let n := nat_of_ascii c in
  (32 <=? n)%nat && negb (n =? 127)%nat
  && negb (Ascii.eqb c "'") && negb (Ascii.eqb c "\").

Definition plain (s : string) : bool := forallb plain_char (list_ascii_of_string s).

(** The block calls an ignore map silences: the error calls for a block
    whose name is listed under its module. *)
Definition suppressed (ign : gmap string (list string)) (c : LogCall) : bool :=
  is_error c && has_fmt block_fmt c &&
  match fargs c with
  | [PyStr module; _; PyStr nm; _] => PyStr.mem nm (default [] (ign !! module))
  | _ => false
  end.

(** The same arguments with no ignore specification. *)
Definition without_ignore (args : Args) : Args :=
  {| ignore_blocks := None; absolute := absolute args; modules := modules args;
     average := average args; averagenum := averagenum args |}.

(** Two outcomes of the first loop agree on everything but the count. *)
Definition same_averages (r r0 : result LoopState) : Prop :=
  match r, r0 with
  | Ret st, Ret st0 =>
      module_averages st = module_averages st0 /\
      total_cc st = total_cc st0 /\
      total_blocks st = total_blocks st0
  | Raise e, Raise e0 => e = e0
  | _, _ => False
  end.

(** A module without blocks, or an error dictionary. *)
Definition no_blocks (item : string * ModuleResult) : Prop :=
  match snd item with
  | BlockList bs => bs = []
  | ErrorDict _ => True
  end.

(** A ceiling that is a rank letter, in either case, or is not set. *)
Definition rank_letter (c : string) : Prop :=
  In (PyStr.upper c) ["A"; "B"; "C"; "D"; "E"; "F"].

Definition ceiling_ok (c : option string) : Prop :=
  match c with
  | Some c => rank_letter c
  | None => True
  end.

(** The modules the first loop gets through: those before the first error
    dictionary with an empty text. *)
Fixpoint walked (results : ResultSet) : ResultSet :=
  match results with
  | [] => []
  | item :: rest => if recognised item then item :: walked rest else []
  end.

Section Calls.

Variable cc_rank : pynum -> string.

Definition block_calls (ign : gmap string (list string)) (args : Args)
    (module : string) (b : Block) : list LogCall :=
  if check (cc_rank (complexity b)) (absolute args)
     && negb (PyStr.mem (name b) (default [] (ign !! module)))
  then [block_call module b (cc_rank (complexity b))]
  else [].

Definition module_block_calls ign args (item : string * ModuleResult) : list LogCall :=
  match snd item with
  | BlockList bs => flat_map (block_calls ign args (fst item)) bs
  | ErrorDict _ => []
  end.

Definition module_calls ign args (item : string * ModuleResult) : list LogCall :=
  match snd item with
  | BlockList bs => flat_map (block_calls ign args (fst item)) bs
  | ErrorDict err => [warn_call (fst item) err]
  end.

Definition total_num_calls (args : Args) (av_cc : pynum) : list LogCall :=
  match averagenum args with
  | Some c => if num_gt av_cc c then [total_num_call av_cc] else []
  | None => []
  end.

Definition total_rank_calls (args : Args) (av_cc : pynum) : list LogCall :=
  if check (cc_rank av_cc) (average args) then [total_rank_call (cc_rank av_cc)] else [].

Definition average_calls (args : Args) (item : string * pynum) : list LogCall :=
  if check (cc_rank (snd item)) (modules args)
  then [module_call (fst item) (cc_rank (snd item))]
  else [].

(** The calls of a run that gets through every module. *)
Definition expected_calls ign args (results : ResultSet) : list LogCall :=
  flat_map (module_calls ign args) results
  ++ total_num_calls args (codebase_average results)
  ++ total_rank_calls args (codebase_average results)
  ++ flat_map (average_calls args) (flat_map module_average results).

Definition expected_count ign args (results : ResultSet) : Z :=
  len (flat_map (module_block_calls ign args) results)
  + len (total_num_calls args (codebase_average results))
  + len (total_rank_calls args (codebase_average results))
  + len (flat_map (average_calls args) (flat_map module_average results)).

End Calls.
(** ** Further definitions *)

(** The place of a rank letter in the order A < B < ... < F. *)
Definition rank_index (r : string) : option nat :=
  if String.eqb r "A" then Some 0%nat
  else if String.eqb r "B" then Some 1%nat
  else if String.eqb r "C" then Some 2%nat
  else if String.eqb r "D" then Some 3%nat
  else if String.eqb r "E" then Some 4%nat
  else if String.eqb r "F" then Some 5%nat
  else None.

(** An ignore specification [build_blocks_to_ignore] cannot unpack: a
    non-empty string with an entry that does not split in two on the colon. *)
Definition malformed (args : Args) : Prop :=
  exists s, ignore_blocks args = Some s /\ s <> "" /\
            Exists (fun e => ~ two_parts e) (PyStr.split "," s).

(** The block names the entries give for the module [m], in the order of the
    entries and with repetitions. *)
Definition entry_names (m : string) (entries : list string) : list string :=
  flat_map (fun e =>
    match PyStr.split ":" e with
    | [x; y] => if String.eqb (PyStr.strip x) m then [PyStr.strip y] else []
    | _ => []
    end) entries.

(** Two ignore maps give the same answer for every block of the result set. *)
Definition agree_on (results : ResultSet) (ign ign' : gmap string (list string)) : Prop :=
  forall m bs b,
    In (m, BlockList bs) results -> In b bs ->
    PyStr.mem (name b) (default [] (ign !! m))
    = PyStr.mem (name b) (default [] (ign' !! m)).

(** The ceiling [c'] allows at least what [c] allows: it is not set, or both
    are set and [c] is not above [c'] once upper-cased. *)
Definition laxer (c c' : option string) : Prop :=
  match c', c with
  | None, _ => True
  | Some b, Some a => PyStr.gt (PyStr.upper a) (PyStr.upper b) = false
  | Some _, None => False
  end.

Definition laxer_num (c c' : option spec_float) : Prop :=
  match c', c with
  | None, _ => True
  | Some b, Some a => SFleb a b = true
  | Some _, None => False
  end.

(** A module with a block list. *)
Definition is_block_list (item : string * ModuleResult) : bool :=
  match snd item with
  | BlockList _ => true
  | ErrorDict _ => false
  end.

(** ** [analyze] *)

(** The attributes of [args] that [analyze] reads besides those of
    [find_infractions], which are kept in [thresholds]. *)
Record CliArgs := {
  path : list string;
  exclude : option string;
  ignore : option string;
  no_assert : bool;
  thresholds : Args
}.

(** The keyword arguments [analyze] gives to [radon.cli.Config]; [order] is
    always [SCORE] and is left out. *)
Record Config := {
  cfg_exclude : option string;
  cfg_ignore : option string;
  cfg_no_assert : bool;
  cfg_show_closures : bool;
  cfg_min : string;
  cfg_max : string
}.

Section Analyze.

(** [radon.complexity.cc_rank] and [CCHarvester(paths, config)._to_dicts()],
    taken as black boxes. *)
Variable cc_rank : pynum -> string.
Variable to_dicts : list string -> Config -> ResultSet.

Definition analyze (args : CliArgs) : M (Z * ResultSet) :=
  let config := {| cfg_exclude := exclude args;
                   cfg_ignore := ignore args;
                   cfg_no_assert := no_assert args;
                   cfg_show_closures := false;
                   cfg_min := "A";
                   cfg_max := "F" |} in
  let results := to_dicts (path args) config in
  n <- find_infractions cc_rank (thresholds args) results ;;
  ret (n, results).

End Analyze.

(** The five calls the program can make on the logger. *)
Definition program_call (c : LogCall) : Prop :=
  (exists m err, c = warn_call m err) \/
  (exists m b r, c = block_call m b r) \/
  (exists a, c = total_num_call a) \/
  (exists r, c = total_rank_call r) \/
  (exists m r, c = module_call m r).

(** The blocks of a module; none for an error dictionary. *)
Definition blocks_of (item : string * ModuleResult) : list Block :=
  match snd item with
  | BlockList bs => bs
  | ErrorDict _ => []
  end.



(** * Properties *)

(** ** The monad and the loops *)

Lemma bind_ret_l {A B} (a : A) (f : A -> M B) : bind (ret a) f = f a.
Proof. unfold bind, ret. destruct (f a) as [r l]. reflexivity. Qed.

Lemma bind_run {A B} (a : A) (l : list LogCall) (f : A -> M B) :
  bind (Ret a, l) f = (fst (f a), l ++ snd (f a)).
Proof. unfold bind. destruct (f a); reflexivity. Qed.

Lemma bind_raise {A B} (e : exn) (l : list LogCall) (f : A -> M B) :
  bind (Raise e, l) f = (Raise e, l).
Proof. reflexivity. Qed.

Lemma len_nil {A} : len (@nil A) = 0.
Proof. reflexivity. Qed.

Lemma len_app {A} (l1 l2 : list A) : len (l1 ++ l2) = len l1 + len l2.
Proof. unfold len. rewrite length_app. lia. Qed.

Lemma len_cons {A} (x : A) (l : list A) : len (x :: l) = 1 + len l.
Proof. unfold len. simpl length. lia. Qed.

Lemma len_nonneg {A} (l : list A) : 0 <= len l.
Proof. unfold len. lia. Qed.

Lemma av_returns n m : av n m = ret (av_value n m).
Proof.
  unfold av, truediv, av_value. destruct (m =? 0); reflexivity.
Qed.

(** ** Examples *)

Example split_ex :
  PyStr.split "," "mod_a:f1, mod_a:f2 , mod_b:g" = ["mod_a:f1"; " mod_a:f2 "; " mod_b:g"].
Proof. reflexivity. Qed.

Example strip_ex : PyStr.strip "  a b	 " = "a b".
Proof. reflexivity. Qed.

Example gt_ex : PyStr.gt "F" "B" = true /\ PyStr.gt "A" "A" = false /\ PyStr.gt "A" "" = true.
Proof. repeat split; reflexivity. Qed.

Example scenario1 :
  find_infractions cc_rank (mkargs None (Some "A") None None None)
    [("m1", BlockList [{| name := "f"; lineno := 1; complexity := NInt 2 |}])]
  = (Ret 0, []).
Proof. vm_compute. reflexivity. Qed.

Example scenario2 :
  find_infractions cc_rank (mkargs None (Some "B") None None None)
    [("m1", BlockList [{| name := "f"; lineno := 1; complexity := NInt 45 |}])]
  = (Ret 1, [{| lvl := ERROR; fmt := block_fmt;
                fargs := [PyStr "m1"; PyInt 1; PyStr "f"; PyStr "F"] |}]).
Proof. vm_compute. reflexivity. Qed.

Example scenario3 :
  find_infractions cc_rank (mkargs (Some "m1:f") (Some "B") None None (Some (fl 10)))
    [("m1", BlockList [{| name := "f"; lineno := 1; complexity := NInt 45 |}])]
  = (Ret 1, [{| lvl := ERROR; fmt := total_num_fmt; fargs := [PyFloat (fl 45)] |}]).
Proof. vm_compute. reflexivity. Qed.

Example scenario3_block_ignored :
  find_infractions cc_rank (mkargs (Some "m1:f") (Some "B") None None None)
    [("m1", BlockList [{| name := "f"; lineno := 1; complexity := NInt 45 |}])]
  = (Ret 0, []).
Proof. vm_compute. reflexivity. Qed.

Example scenario4 :
  find_infractions cc_rank (mkargs None (Some "A") (Some "A") (Some "A") (Some (fl 0)))
    [("m1", ErrorDict "SyntaxError")]
  = (Ret 0, [{| lvl := WARNING; fmt := warn_fmt;
                fargs := [PyStr "m1"; PyStr "SyntaxError"] |}]).
Proof. vm_compute. reflexivity. Qed.


(** ** The loops of [find_infractions], one iteration at a time *)

Section Loops.

Variable cc_rank : pynum -> string.

Lemma block_body_run ign args module s b :
  block_body cc_rank ign args module s b
  = (Ret (Ieee.add (fst s) (to_float (complexity b)),
          snd s + len (block_calls cc_rank ign args module b)),
     block_calls cc_rank ign args module b).
Proof.
  unfold block_body, block_calls.
  destruct (check _ _ && negb _); simpl.
  - reflexivity.
  - unfold ret. rewrite len_nil, Z.add_0_r. reflexivity.
Qed.

Lemma blocks_loop ign args module bs s :
  for_each (block_body cc_rank ign args module) bs s
  = (Ret (fold_left (fun acc b => Ieee.add acc (to_float (complexity b))) bs (fst s),
          snd s + len (flat_map (block_calls cc_rank ign args module) bs)),
     flat_map (block_calls cc_rank ign args module) bs).
Proof.
  revert s. induction bs as [|b bs IH]; intros s.
  - simpl. unfold ret. rewrite len_nil, Z.add_0_r. destruct s; reflexivity.
  - simpl for_each. rewrite block_body_run, bind_run, IH. simpl.
    rewrite len_app. do 3 f_equal. lia.
Qed.

Lemma average_body_run args i item :
  average_body cc_rank args i item
  = (Ret (i + len (average_calls cc_rank args item)), average_calls cc_rank args item).
Proof.
  unfold average_body, average_calls.
  destruct (check _ _); simpl.
  - reflexivity.
  - unfold ret. rewrite len_nil, Z.add_0_r. reflexivity.
Qed.

Lemma averages_loop args mas i :
  for_each (average_body cc_rank args) mas i
  = (Ret (i + len (flat_map (average_calls cc_rank args) mas)),
     flat_map (average_calls cc_rank args) mas).
Proof.
  revert i. induction mas as [|m mas IH]; intros i.
  - simpl. unfold ret. rewrite len_nil, Z.add_0_r. reflexivity.
  - simpl for_each. rewrite average_body_run, bind_run, IH. simpl.
    rewrite len_app. do 2 f_equal. lia.
Qed.

(** One module whose result the program recognises. *)
Lemma module_body_run ign args st item :
  recognised item = true ->
  module_body cc_rank ign args st item
  = (Ret {| infractions := infractions st + len (module_block_calls cc_rank ign args item);
            module_averages := module_averages st ++ module_average item;
            total_cc := add_cc (total_cc st) item;
            total_blocks := add_blocks (total_blocks st) item |},
     module_calls cc_rank ign args item).
Proof.
  unfold recognised, module_body, module_block_calls, module_average, add_cc,
    add_blocks, module_calls.
  destruct (snd item) as [bs|err]; intros Hrec.
  - rewrite blocks_loop, bind_run. simpl fst. simpl snd.
    rewrite av_returns, bind_ret_l. unfold ret, module_cc_of.
    rewrite app_nil_r. reflexivity.
  - rewrite Hrec. unfold logger_warning, warn_call. simpl.
    rewrite len_nil, Z.add_0_r, app_nil_r. destruct st; reflexivity.
Qed.

(** An error dictionary with an empty text stops the run. *)
Lemma module_body_raise ign args st item :
  recognised item = false ->
  module_body cc_rank ign args st item = (Raise TypeError, []).
Proof.
  unfold recognised, module_body.
  destruct (snd item) as [bs|err]; intros Hrec; [discriminate|].
  rewrite Hrec. reflexivity.
Qed.

Lemma modules_loop ign args results st :
  forallb recognised results = true ->
  for_each (module_body cc_rank ign args) results st
  = (Ret {| infractions :=
              infractions st + len (flat_map (module_block_calls cc_rank ign args) results);
            module_averages := module_averages st ++ flat_map module_average results;
            total_cc := fold_left add_cc results (total_cc st);
            total_blocks := fold_left add_blocks results (total_blocks st) |},
     flat_map (module_calls cc_rank ign args) results).
Proof.
  revert st. induction results as [|item results IH]; intros st Hrec.
  - simpl. unfold ret. rewrite len_nil, Z.add_0_r, app_nil_r.
    destruct st; reflexivity.
  - simpl in Hrec. apply andb_prop in Hrec as [Hitem Hrest].
    simpl for_each. rewrite module_body_run by assumption.
    rewrite bind_run, IH by assumption. simpl.
    rewrite len_app, <- app_assoc, Z.add_assoc. reflexivity.
Qed.

Lemma modules_loop_raise ign args results st :
  forallb recognised results = false ->
  for_each (module_body cc_rank ign args) results st
  = (Raise TypeError, flat_map (module_calls cc_rank ign args) (walked results)).
Proof.
  revert st. induction results as [|item results IH]; intros st Hrec.
  - discriminate.
  - simpl in Hrec. simpl walked. destruct (recognised item) eqn:Hitem.
    + simpl in Hrec. simpl for_each.
      rewrite module_body_run by assumption. rewrite bind_run.
      rewrite IH by assumption. reflexivity.
    + simpl for_each. rewrite module_body_raise by assumption. reflexivity.
Qed.

Lemma totals_run args st :
  let av_cc := av_value (total_cc st) (total_blocks st) in
  totals cc_rank args st
  = (Ret (infractions st
          + len (total_num_calls args av_cc)
          + len (total_rank_calls cc_rank args av_cc)
          + len (flat_map (average_calls cc_rank args) (module_averages st))),
     total_num_calls args av_cc ++ total_rank_calls cc_rank args av_cc
       ++ flat_map (average_calls cc_rank args) (module_averages st)).
Proof.
  intros av_cc. unfold totals. rewrite av_returns, bind_ret_l. fold av_cc.
  unfold total_num_calls, total_rank_calls.
  destruct (averagenum args) as [c|]; [destruct (num_gt av_cc c)|];
    destruct (check (cc_rank av_cc) (average args));
    unfold logger_error; simpl;
    rewrite averages_loop; simpl; rewrite ?len_cons, ?len_nil;
    f_equal; f_equal; lia.
Qed.

Lemma evaluate_run ign args results :
  forallb recognised results = true ->
  evaluate cc_rank ign args results
  = (Ret (expected_count cc_rank ign args results),
     expected_calls cc_rank ign args results).
Proof.
  intros Hrec. unfold evaluate. rewrite modules_loop by assumption.
  rewrite bind_run, totals_run. simpl. reflexivity.
Qed.

Lemma evaluate_raise ign args results :
  forallb recognised results = false ->
  evaluate cc_rank ign args results
  = (Raise TypeError, flat_map (module_calls cc_rank ign args) (walked results)).
Proof.
  intros Hrec. unfold evaluate. rewrite modules_loop_raise by assumption.
  reflexivity.
Qed.

End Loops.

(** ** [build_blocks_to_ignore] makes no logger call *)

Lemma ignore_entries_silent entries acc :
  snd (for_each ignore_entry entries acc) = [].
Proof.
  revert acc. induction entries as [|e entries IH]; intros acc; [reflexivity|].
  simpl for_each. unfold ignore_entry at 1.
  destruct (PyStr.split ":" e) as [|x [|y [|z l]]]; try reflexivity.
  rewrite bind_ret_l. apply IH.
Qed.

Lemma build_silent args : snd (build_blocks_to_ignore args) = [].
Proof.
  unfold build_blocks_to_ignore.
  destruct (ignore_blocks args) as [s|]; [|reflexivity].
  destruct (negb (PyStr.truthy s)); [reflexivity|apply ignore_entries_silent].
Qed.

Lemma find_infractions_built rk args results ign :
  build_blocks_to_ignore args = ret ign ->
  find_infractions rk args results = evaluate rk ign args results.
Proof.
  intros H. unfold find_infractions. rewrite H.
  exact (bind_ret_l ign (fun b => evaluate rk b args results)).
Qed.

Lemma find_infractions_unbuilt rk args results e :
  fst (build_blocks_to_ignore args) = Raise e ->
  find_infractions rk args results = (Raise e, []).
Proof.
  intros H. unfold find_infractions.
  pose proof (build_silent args) as Hs.
  destruct (build_blocks_to_ignore args) as [r l]. simpl in *. subst. reflexivity.
Qed.

(** ** Selecting calls from the log *)

Lemma filter_flat_map {A B} (p : B -> bool) (f : A -> list B) (l : list A) :
  List.filter p (flat_map f l) = flat_map (fun x => List.filter p (f x)) l.
Proof.
  induction l as [|x l IH]; [reflexivity|].
  simpl. rewrite List.filter_app, IH. reflexivity.
Qed.

Lemma filter_kind q f l cs :
  Forall (kind f l) cs ->
  List.filter (sel q) cs = if q f l then cs else [].
Proof.
  induction 1 as [|c cs [Hf Hl] _ IH].
  - destruct (q f l); reflexivity.
  - simpl. unfold sel at 1. rewrite Hf, Hl, IH. destruct (q f l); reflexivity.
Qed.

Lemma Forall_flat_map_all {A B} (P : B -> Prop) (f : A -> list B) (l : list A) :
  (forall x, Forall P (f x)) -> Forall P (flat_map f l).
Proof.
  intros H. induction l as [|x l IH]; simpl; [constructor|].
  apply Forall_app. split; [apply H|apply IH].
Qed.

Section Kinds.

Variable rk : pynum -> string.

Lemma block_calls_kind ign args m b :
  Forall (kind block_fmt ERROR) (block_calls rk ign args m b).
Proof.
  unfold block_calls. destruct (_ && _); repeat constructor.
Qed.

Lemma module_block_calls_kind ign args item :
  Forall (kind block_fmt ERROR) (module_block_calls rk ign args item).
Proof.
  unfold module_block_calls. destruct (snd item); [|constructor].
  apply Forall_flat_map_all. intros b. apply block_calls_kind.
Qed.

Lemma module_warnings_kind item : Forall (kind warn_fmt WARNING) (module_warnings item).
Proof. unfold module_warnings. destruct (snd item); repeat constructor. Qed.

Lemma total_num_calls_kind args a : Forall (kind total_num_fmt ERROR) (total_num_calls args a).
Proof.
  unfold total_num_calls. destruct (averagenum args) as [c|]; [|constructor].
  destruct (num_gt a c); repeat constructor.
Qed.

Lemma total_rank_calls_kind args a :
  Forall (kind total_rank_fmt ERROR) (total_rank_calls rk args a).
Proof. unfold total_rank_calls. destruct (check _ _); repeat constructor. Qed.

Lemma average_calls_kind args mas :
  Forall (kind module_fmt ERROR) (flat_map (average_calls rk args) mas).
Proof.
  apply Forall_flat_map_all. intros x. unfold average_calls.
  destruct (check _ _); repeat constructor.
Qed.

Lemma module_calls_split ign args item :
  module_calls rk ign args item
  = module_block_calls rk ign args item ++ module_warnings item.
Proof.
  unfold module_calls, module_block_calls, module_warnings.
  destruct (snd item); [rewrite app_nil_r|]; reflexivity.
Qed.

Lemma filter_module_calls q ign args item :
  List.filter (sel q) (module_calls rk ign args item)
  = (if q block_fmt ERROR then module_block_calls rk ign args item else [])
    ++ (if q warn_fmt WARNING then module_warnings item else []).
Proof.
  rewrite module_calls_split, List.filter_app.
  rewrite (filter_kind q _ _ _ (module_block_calls_kind ign args item)).
  rewrite (filter_kind q _ _ _ (module_warnings_kind item)). reflexivity.
Qed.

(** What a test on format and level keeps of the calls of a full run. *)
Lemma filter_expected_calls q ign args results :
  List.filter (sel q) (expected_calls rk ign args results)
  = flat_map (fun item =>
        (if q block_fmt ERROR then module_block_calls rk ign args item else [])
        ++ (if q warn_fmt WARNING then module_warnings item else [])) results
    ++ (if q total_num_fmt ERROR
        then total_num_calls args (codebase_average results) else [])
    ++ (if q total_rank_fmt ERROR
        then total_rank_calls rk args (codebase_average results) else [])
    ++ (if q module_fmt ERROR
        then flat_map (average_calls rk args) (flat_map module_average results)
        else []).
Proof.
  unfold expected_calls. rewrite !List.filter_app, filter_flat_map.
  rewrite (filter_kind q _ _ _ (total_num_calls_kind args _)).
  rewrite (filter_kind q _ _ _ (total_rank_calls_kind args _)).
  rewrite (filter_kind q _ _ _ (average_calls_kind args _)).
  f_equal. apply flat_map_ext. intros item. apply filter_module_calls.
Qed.

Lemma flat_map_app_nil_r {A B} (f : A -> list B) (l : list A) :
  flat_map (fun x => f x ++ []) l = flat_map f l.
Proof. apply flat_map_ext. intros x. apply app_nil_r. Qed.

Lemma flat_map_nil {A B} (l : list A) : flat_map (fun _ : A => @nil B) l = [].
Proof. induction l; simpl; auto. Qed.

Lemma flat_map_nil_app {A B} (f : A -> list B) (l : list A) :
  flat_map (fun x => [] ++ f x) l = flat_map f l.
Proof. apply flat_map_ext. intros x. reflexivity. Qed.

End Kinds.

(** Rewrites a [List.filter] with one of the named tests into the pieces of
    the run it keeps. *)
Ltac select_calls :=
  repeat match goal with
  | |- context [List.filter ?p (expected_calls ?rk ?ign ?args ?results)] =>
      let q := eval cbv beta delta [has_fmt is_error is_warning] in
                 (fun (f : string) (l : level) =>
                    p {| lvl := l; fmt := f; fargs := [] |}) in
      change (List.filter p (expected_calls rk ign args results))
        with (List.filter (sel q) (expected_calls rk ign args results));
      rewrite (filter_expected_calls rk q ign args results)
  end;
  repeat match goal with
  | |- context [if ?b then _ else _] =>
      let v := eval vm_compute in b in
      lazymatch v with
      | true => change b with true
      | false => change b with false
      end;
      cbv beta match
  end;
  rewrite ?flat_map_app_nil_r, ?flat_map_nil_app, ?flat_map_nil, ?app_nil_r, ?app_nil_l.

(** ** Runs of [find_infractions] *)

Lemma find_infractions_run rk args results ign :
  build_blocks_to_ignore args = ret ign ->
  forallb recognised results = true ->
  find_infractions rk args results
  = (Ret (expected_count rk ign args results), expected_calls rk ign args results).
Proof.
  intros Hb Hrec. rewrite (find_infractions_built rk args results ign Hb).
  apply evaluate_run. assumption.
Qed.

(** A run that returns has built its ignore map and got through every module. *)
Lemma find_infractions_returns rk args results n log :
  find_infractions rk args results = (Ret n, log) ->
  exists ign,
    build_blocks_to_ignore args = ret ign /\
    forallb recognised results = true /\
    n = expected_count rk ign args results /\
    log = expected_calls rk ign args results.
Proof.
  intros Hrun.
  pose proof (build_silent args) as Hs.
  destruct (build_blocks_to_ignore args) as [[ign|e] l] eqn:Hb; simpl in Hs; subst l.
  - exists ign. split; [reflexivity|].
    rewrite (find_infractions_built rk args results ign Hb) in Hrun.
    destruct (forallb recognised results) eqn:Hrec.
    + rewrite evaluate_run in Hrun by assumption.
      inversion Hrun. auto.
    + rewrite evaluate_raise in Hrun by assumption. discriminate.
  - rewrite (find_infractions_unbuilt rk args results e) in Hrun; [discriminate|].
    rewrite Hb. reflexivity.
Qed.

Lemma expected_count_errors rk ign args results :
  expected_count rk ign args results
  = len (List.filter is_error (expected_calls rk ign args results)).
Proof.
  select_calls. unfold expected_count. rewrite !len_app. lia.
Qed.

Lemma expected_count_axes rk ign args results :
  let log := expected_calls rk ign args results in
  expected_count rk ign args results
  = len (List.filter (has_fmt block_fmt) log)
    + len (List.filter (has_fmt total_num_fmt) log)
    + len (List.filter (has_fmt total_rank_fmt) log)
    + len (List.filter (has_fmt module_fmt) log).
Proof.
  intros log. subst log. select_calls. reflexivity.
Qed.

Lemma mem_In x l : PyStr.mem x l = true <-> In x l.
Proof.
  unfold PyStr.mem. rewrite existsb_exists. split.
  - intros (y & Hy & Heq). apply String.eqb_eq in Heq. subst. assumption.
  - intros H. exists x. split; [assumption|apply String.eqb_refl].
Qed.

Lemma append_empty_r (s : string) : s +:+ "" = s.
Proof.
  induction s as [|c s IH]; [reflexivity|].
  change (String c (s +:+ "") = String c s). f_equal. exact IH.
Qed.

(** The text logged for a block over its ceiling. *)
Lemma block_call_message m b r :
  PyFormat.message (block_call m b r)
  = Some ("block " +:+ PyStr.dq +:+ m +:+ ":" +:+ PyFormat.str_int (lineno b) +:+ " "
          +:+ name b +:+ PyStr.dq +:+ " has a rank of " +:+ r).
Proof.
  transitivity
    (Some ("block " +:+ PyStr.dq +:+ m +:+ ":" +:+ PyFormat.str_int (lineno b) +:+ " "
           +:+ name b +:+ PyStr.dq +:+ " has a rank of " +:+ (r +:+ ""))).
  - reflexivity.
  - rewrite append_empty_r. reflexivity.
Qed.

Lemma warn_call_message m err :
  PyFormat.message (warn_call m err) = Some ("cannot parse " +:+ m +:+ ": " +:+ err).
Proof.
  transitivity (Some ("cannot parse " +:+ m +:+ ": " +:+ (err +:+ ""))).
  - reflexivity.
  - rewrite append_empty_r. reflexivity.
Qed.

Lemma total_rank_call_message ar :
  PyFormat.message (total_rank_call ar) = Some ("average complexity is ranked " +:+ ar).
Proof.
  transitivity (Some ("average complexity is ranked " +:+ (ar +:+ ""))).
  - reflexivity.
  - rewrite append_empty_r. reflexivity.
Qed.

Lemma module_call_message m mar :
  PyFormat.message (module_call m mar)
  = Some ("module " +:+ PyFormat.repr_str m +:+ " has a rank of " +:+ mar).
Proof.
  transitivity (Some ("module " +:+ PyFormat.repr_str m +:+ " has a rank of " +:+ (mar +:+ ""))).
  - reflexivity.
  - rewrite append_empty_r. reflexivity.
Qed.

(** ** Error dictionaries the program recognises *)

(** An error dictionary with a non-empty text: one warning, and none of the
    loop variables changes. *)
Lemma error_dict_skipped rk ign args st m err :
  PyStr.truthy err = true ->
  module_body rk ign args st (m, ErrorDict err) = (Ret st, [warn_call m err]).
Proof.
  intros Hrec. unfold module_body. simpl. rewrite Hrec. reflexivity.
Qed.

(** ** [upper] *)

Lemma upper_ascii_idem c : PyStr.upper_ascii (PyStr.upper_ascii c) = PyStr.upper_ascii c.
Proof. destruct c as [[] [] [] [] [] [] [] []]; reflexivity. Qed.

Lemma upper_idem s : PyStr.upper (PyStr.upper s) = PyStr.upper s.
Proof.
  induction s as [|c s IH]; simpl; [reflexivity|].
  rewrite upper_ascii_idem, IH. reflexivity.
Qed.

(** ** Inputs without blocks *)

Lemma check_A_ceiling c : ceiling_ok c -> check "A" c = false.
Proof.
  destruct c as [c|]; [|reflexivity].
  unfold ceiling_ok, rank_letter, check. intros H. simpl in H.
  destruct H as [<-|[<-|[<-|[<-|[<-|[<-|[]]]]]]]; reflexivity.
Qed.

Lemma add_blocks_le t item : t <= add_blocks t item.
Proof.
  unfold add_blocks. destruct (snd item) as [bs|err]; [|lia].
  pose proof (len_nonneg bs). lia.
Qed.

Lemma fold_add_blocks_le results t : t <= fold_left add_blocks results t.
Proof.
  revert t. induction results as [|item results IH]; intros t; simpl; [lia|].
  pose proof (add_blocks_le t item). pose proof (IH (add_blocks t item)). lia.
Qed.

Lemma len_zero_nil {A} (l : list A) : len l = 0 -> l = [].
Proof. destruct l; [reflexivity|]. rewrite len_cons. pose proof (len_nonneg l). lia. Qed.

Lemma zero_blocks_all_empty results :
  codebase_blocks results = 0 -> Forall no_blocks results.
Proof.
  unfold codebase_blocks. induction results as [|item results IH]; [constructor|].
  simpl. intros H.
  pose proof (fold_add_blocks_le results (add_blocks 0 item)) as Hle.
  pose proof (add_blocks_le 0 item) as Hge.
  assert (Hitem : add_blocks 0 item = 0) by lia.
  rewrite Hitem in H. constructor; [|apply IH; exact H].
  unfold add_blocks in Hitem. unfold no_blocks.
  destruct (snd item) as [bs|err]; [|exact I].
  apply len_zero_nil. lia.
Qed.

Section NoBlocks.

Variable rk : pynum -> string.
Hypothesis rank_zero : rk (NInt 0) = "A".

Lemma zero_average_silent args m :
  ceiling_ok (modules args) -> average_calls rk args (m, NInt 0) = [].
Proof.
  intros Hc. unfold average_calls. simpl. rewrite rank_zero, check_A_ceiling; auto.
Qed.

Lemma no_blocks_calls ign args results :
  Forall no_blocks results ->
  flat_map (module_calls rk ign args) results = flat_map module_warnings results /\
  flat_map (module_block_calls rk ign args) results = [].
Proof.
  induction 1 as [|item results Hitem _ [IH1 IH2]]; [split; reflexivity|].
  simpl. rewrite IH1, IH2.
  unfold no_blocks in Hitem.
  unfold module_calls, module_block_calls, module_warnings.
  destruct (snd item) as [bs|err]; [subst bs|]; split; reflexivity.
Qed.

Lemma no_blocks_averages args results :
  ceiling_ok (modules args) ->
  Forall no_blocks results ->
  flat_map (average_calls rk args) (flat_map module_average results) = [].
Proof.
  intros Hc. induction 1 as [|item results Hitem _ IH]; [reflexivity|].
  simpl. rewrite flat_map_app, IH, app_nil_r.
  unfold no_blocks in Hitem. unfold module_average.
  destruct (snd item) as [bs|err]; [subst bs|reflexivity].
  simpl. rewrite app_nil_r. apply zero_average_silent. exact Hc.
Qed.

End NoBlocks.

(** ** The loop of [build_blocks_to_ignore] *)

Lemma ignore_entry_two_parts acc e x y :
  PyStr.split ":" e = [x; y] ->
  ignore_entry acc e
  = ret (<[PyStr.strip x := default [] (acc !! PyStr.strip x) ++ [PyStr.strip y]]> acc).
Proof. intros H. unfold ignore_entry. rewrite H. reflexivity. Qed.

Lemma ignore_entry_malformed acc e :
  ~ two_parts e -> ignore_entry acc e = (Raise ValueError, []).
Proof.
  unfold two_parts, ignore_entry. intros H.
  destruct (PyStr.split ":" e) as [|x [|y [|z l]]]; try reflexivity.
  exfalso. apply H. reflexivity.
Qed.

Lemma two_parts_inv e : two_parts e -> exists x y, PyStr.split ":" e = [x; y].
Proof.
  unfold two_parts. destruct (PyStr.split ":" e) as [|x [|y [|z l]]]; try discriminate.
  intros _. eauto.
Qed.

Lemma two_parts_dec e : two_parts e \/ ~ two_parts e.
Proof. unfold two_parts. destruct (Nat.eq_dec (length (PyStr.split ":" e)) 2%nat); auto. Qed.

Lemma ignore_entries_raise entries acc :
  Exists (fun e => ~ two_parts e) entries ->
  for_each ignore_entry entries acc = (Raise ValueError, []).
Proof.
  revert acc. induction entries as [|e entries IH]; intros acc Hex.
  - inversion Hex.
  - simpl for_each. destruct (two_parts_dec e) as [Hok|Hbad].
    + destruct (two_parts_inv e Hok) as (x & y & Hxy).
      rewrite (ignore_entry_two_parts acc e x y Hxy), bind_ret_l.
      apply IH. inversion Hex; [contradiction|assumption].
    + rewrite (ignore_entry_malformed acc e Hbad). reflexivity.
Qed.

Lemma insert_append_member (acc : gmap string (list string)) (k v m b : string) :
  In b (default [] (<[k := default [] (acc !! k) ++ [v]]> acc !! m))
  <-> In b (default [] (acc !! m)) \/ (m = k /\ b = v).
Proof.
  destruct (decide (k = m)) as [->|Hne].
  - rewrite lookup_insert_eq. simpl. rewrite in_app_iff. simpl. intuition.
  - rewrite lookup_insert_ne by assumption. intuition congruence.
Qed.

Lemma ignore_entries_run entries acc :
  Forall two_parts entries ->
  exists ign,
    for_each ignore_entry entries acc = ret ign /\
    forall m b,
      In b (default [] (ign !! m))
      <-> In b (default [] (acc !! m)) \/ exists e, In e entries /\ names_entry e m b.
Proof.
  revert acc. induction entries as [|e entries IH]; intros acc Hall.
  - exists acc. split; [reflexivity|]. intros m b. split; [auto|].
    intros [H|(e & [] & _)]. exact H.
  - inversion Hall as [|? ? He Hrest]; subst.
    destruct (two_parts_inv e He) as (x & y & Hxy).
    simpl for_each. rewrite (ignore_entry_two_parts acc e x y Hxy), bind_ret_l.
    destruct (IH (<[PyStr.strip x := default [] (acc !! PyStr.strip x) ++ [PyStr.strip y]]> acc)
                Hrest) as (ign & Hrun & Hmem).
    exists ign. split; [exact Hrun|]. intros m b.
    rewrite Hmem, insert_append_member. split.
    + intros [[H|[-> ->]]|(e' & Hin & Hn)].
      * auto.
      * right. exists e. split; [left; reflexivity|]. exists x, y. auto.
      * right. exists e'. split; [right; assumption|assumption].
    + intros [H|(e' & [<-|Hin] & Hn)].
      * auto.
      * destruct Hn as (x' & y' & Hxy' & -> & ->).
        rewrite Hxy in Hxy'. injection Hxy' as <- <-. auto.
      * right. exists e'. auto.
Qed.

Lemma split_length sep s : length (PyStr.split sep s) = S (occurrences sep s).
Proof.
  induction s as [|c s IH]; [reflexivity|].
  cbn [PyStr.split occurrences]. destruct (Ascii.eqb c sep).
  - simpl. rewrite IH. reflexivity.
  - destruct (PyStr.split sep s) as [|p ps]; [discriminate IH|]. exact IH.
Qed.

Lemma two_parts_one_colon e : two_parts e <-> occurrences ":" e = 1%nat.
Proof. unfold two_parts. rewrite split_length. lia. Qed.

(** The map of the documented example, read as sets of names. *)
Lemma example_map_members (m b : string) :
  In b (default []
          (({["mod_a" := ["f1"; "f2"]; "mod_b" := ["g"]]} : gmap string (list string)) !! m))
  <-> (m = "mod_a" /\ (b = "f1" \/ b = "f2")) \/ (m = "mod_b" /\ b = "g").
Proof.
  destruct (decide (m = "mod_a")) as [->|Ha].
  - rewrite lookup_insert_eq. simpl. split.
    + intros [<-|[<-|[]]]; auto.
    + intros [[_ [->| ->]]|[H _]]; [auto|auto|discriminate H].
  - rewrite lookup_insert_ne by congruence.
    destruct (decide (m = "mod_b")) as [->|Hb].
    + rewrite lookup_singleton_eq. simpl. split.
      * intros [<-|[]]. auto.
      * intros [[H _]|[_ ->]]; [discriminate H|auto].
    + rewrite lookup_singleton_ne by congruence. simpl. split; [intros []|].
      intros [[H _]|[H _]]; congruence.
Qed.

Lemma truthy_nonempty s : s <> "" -> PyStr.truthy s = true.
Proof. destruct s; [congruence|reflexivity]. Qed.

(** ** The module-rank check *)

Lemma flat_map_flat_map {A B C} (f : B -> list C) (g : A -> list B) (l : list A) :
  flat_map f (flat_map g l) = flat_map (fun x => flat_map f (g x)) l.
Proof.
  induction l as [|x l IH]; [reflexivity|].
  simpl. rewrite flat_map_app, IH. reflexivity.
Qed.

Lemma average_calls_by_module rk args results :
  flat_map (average_calls rk args) (flat_map module_average results)
  = flat_map (module_rank_calls rk args) results.
Proof.
  rewrite flat_map_flat_map. apply flat_map_ext. intros item.
  unfold module_average, module_rank_calls, average_calls.
  destruct (snd item) as [bs|err]; [|reflexivity].
  simpl. apply app_nil_r.
Qed.

(** ** [repr] of a plain name *)

Lemma plain_char_repr c : plain_char c = true -> PyFormat.repr_char "'" c = String c "".
Proof. destruct c as [[] [] [] [] [] [] [] []]; intros H; try discriminate H; reflexivity. Qed.

Lemma plain_char_no_quote c : plain_char c = true -> Ascii.eqb "'" c = false.
Proof. destruct c as [[] [] [] [] [] [] [] []]; intros H; try discriminate H; reflexivity. Qed.

Lemma plain_has_no_quote s : plain s = true -> PyFormat.has "'" s = false.
Proof.
  unfold plain, PyFormat.has. induction s as [|c s IH]; [reflexivity|].
  cbn [list_ascii_of_string forallb existsb]. intros H. apply andb_prop in H as [Hc Hs].
  rewrite (plain_char_no_quote c Hc), (IH Hs). reflexivity.
Qed.

Lemma plain_repr_body s : plain s = true -> PyFormat.repr_body "'" s = s.
Proof.
  unfold plain. induction s as [|c s IH]; [reflexivity|].
  cbn [list_ascii_of_string forallb PyFormat.repr_body]. intros H.
  apply andb_prop in H as [Hc Hs].
  rewrite (plain_char_repr c Hc), (IH Hs). reflexivity.
Qed.

(** [repr] puts a plain name between single quotes. *)
Lemma plain_repr s : plain s = true -> PyFormat.repr_str s = "'" +:+ s +:+ "'".
Proof.
  intros H. unfold PyFormat.repr_str, PyFormat.quote_of.
  rewrite (plain_has_no_quote s H). simpl. rewrite (plain_repr_body s H). reflexivity.
Qed.

Lemma expected_calls_split rk ign args results :
  expected_calls rk ign args results
  = (flat_map (module_calls rk ign args) results
     ++ total_num_calls args (codebase_average results)
     ++ total_rank_calls rk args (codebase_average results))
    ++ flat_map (module_rank_calls rk args) results.
Proof.
  unfold expected_calls. rewrite average_calls_by_module, <- !app_assoc. reflexivity.
Qed.

Lemma module_rank_calls_kind rk args results :
  Forall (kind module_fmt ERROR) (flat_map (module_rank_calls rk args) results).
Proof. rewrite <- average_calls_by_module. apply average_calls_kind. Qed.

Lemma filter_sel_has_fmt f cs : List.filter (has_fmt f) cs = List.filter (sel (fun f' _ => String.eqb f' f)) cs.
Proof. reflexivity. Qed.

Lemma filter_sel_is_error cs :
  List.filter is_error cs
  = List.filter (sel (fun _ l => match l with ERROR => true | WARNING => false end)) cs.
Proof. reflexivity. Qed.

(** ** With and without an ignore map *)

Lemma suppressed_other_fmt ign c : fmt c <> block_fmt -> suppressed ign c = false.
Proof.
  intros H. unfold suppressed, has_fmt.
  destruct (String.eqb_spec (fmt c) block_fmt) as [Heq|_]; [contradiction|].
  rewrite andb_false_r. reflexivity.
Qed.

Lemma filter_keeps_kind ign f l cs :
  f <> block_fmt ->
  Forall (kind f l) cs ->
  List.filter (fun c => negb (suppressed ign c)) cs = cs.
Proof.
  intros Hf. induction 1 as [|c cs [Hc _] _ IH]; [reflexivity|].
  simpl. rewrite IH, suppressed_other_fmt; [reflexivity|congruence].
Qed.

Lemma suppressed_block_call ign m b r :
  suppressed ign (block_call m b r) = PyStr.mem (name b) (default [] (ign !! m)).
Proof. reflexivity. Qed.

Lemma filter_other_fmt ign f cs :
  f <> block_fmt ->
  List.filter (has_fmt f) (List.filter (fun c => negb (suppressed ign c)) cs)
  = List.filter (has_fmt f) cs.
Proof.
  intros Hf. induction cs as [|c cs IH]; [reflexivity|].
  simpl. destruct (suppressed ign c) eqn:Hs; simpl.
  - destruct (has_fmt f c) eqn:Hc; [|exact IH].
    unfold has_fmt in Hc. apply String.eqb_eq in Hc.
    rewrite suppressed_other_fmt in Hs by congruence. discriminate.
  - rewrite IH. reflexivity.
Qed.

Lemma count_suppressed ign cs :
  len (List.filter is_error cs)
  = len (List.filter is_error (List.filter (fun c => negb (suppressed ign c)) cs))
    + len (List.filter (suppressed ign) cs).
Proof.
  induction cs as [|c cs IH]; [reflexivity|].
  simpl. destruct (suppressed ign c) eqn:Hs; simpl.
  - assert (He : is_error c = true).
    { unfold suppressed in Hs. destruct (is_error c); [reflexivity|discriminate]. }
    rewrite He, !len_cons. lia.
  - destruct (is_error c); rewrite ?len_cons; lia.
Qed.

Section IgnoreMap.

Variable rk : pynum -> string.

Lemma block_calls_filtered ign args m b :
  block_calls rk ign args m b
  = List.filter (fun c => negb (suppressed ign c))
      (block_calls rk ∅ (without_ignore args) m b).
Proof.
  unfold block_calls. rewrite lookup_empty. simpl.
  destruct (check _ _); [|reflexivity].
  simpl. rewrite suppressed_block_call.
  destruct (PyStr.mem _ _); reflexivity.
Qed.

Lemma module_calls_filtered ign args item :
  module_calls rk ign args item
  = List.filter (fun c => negb (suppressed ign c))
      (module_calls rk ∅ (without_ignore args) item).
Proof.
  unfold module_calls. destruct (snd item) as [bs|err]; [|reflexivity].
  rewrite filter_flat_map. apply flat_map_ext. intros b. apply block_calls_filtered.
Qed.

Lemma modules_calls_filtered ign args results :
  flat_map (module_calls rk ign args) results
  = List.filter (fun c => negb (suppressed ign c))
      (flat_map (module_calls rk ∅ (without_ignore args)) results).
Proof.
  rewrite filter_flat_map. apply flat_map_ext. intros item. apply module_calls_filtered.
Qed.

Lemma expected_calls_filtered ign args results :
  expected_calls rk ign args results
  = List.filter (fun c => negb (suppressed ign c))
      (expected_calls rk ∅ (without_ignore args) results).
Proof.
  unfold expected_calls. rewrite !List.filter_app, <- modules_calls_filtered.
  rewrite (filter_keeps_kind ign total_num_fmt ERROR); [|discriminate|].
  rewrite (filter_keeps_kind ign total_rank_fmt ERROR); [|discriminate|].
  rewrite (filter_keeps_kind ign module_fmt ERROR); [|discriminate|].
  - reflexivity.
  - apply average_calls_kind.
  - apply total_rank_calls_kind.
  - apply total_num_calls_kind.
Qed.

(** The two runs, once the ignore maps are built. *)
Lemma evaluate_filtered ign args results :
  let run := evaluate rk ign args results in
  let run0 := evaluate rk ∅ (without_ignore args) results in
  snd run = List.filter (fun c => negb (suppressed ign c)) (snd run0) /\
  match fst run, fst run0 with
  | Ret n, Ret n0 => n0 = n + len (List.filter (suppressed ign) (snd run0))
  | Raise e, Raise e0 => e = e0
  | _, _ => False
  end.
Proof.
  intros run run0. subst run run0.
  destruct (forallb recognised results) eqn:Hrec.
  - rewrite !evaluate_run by assumption. simpl fst. simpl snd.
    split; [apply expected_calls_filtered|].
    rewrite !expected_count_errors, (expected_calls_filtered ign args results).
    apply count_suppressed.
  - rewrite !evaluate_raise by assumption. simpl fst. simpl snd.
    split; [apply modules_calls_filtered|reflexivity].
Qed.

Lemma first_loop_same_averages ign args results :
  same_averages
    (fst (for_each (module_body rk ign args) results init_state))
    (fst (for_each (module_body rk ∅ (without_ignore args)) results init_state)).
Proof.
  destruct (forallb recognised results) eqn:Hrec.
  - rewrite !modules_loop by assumption. simpl. auto.
  - rewrite !modules_loop_raise by assumption. reflexivity.
Qed.

End IgnoreMap.

(** ** The order of the doubles *)

Ltac order_cases :=
  repeat match goal with
  | |- context [PosDef.Pos.compare_cont Eq ?x ?y] =>
      change (PosDef.Pos.compare_cont Eq x y) with (Pos.compare x y)
  | |- context [Z.compare ?x ?y] => destruct (Z.compare_spec x y)
  | |- context [Pos.compare ?x ?y] => destruct (Pos.compare_spec x y)
  end.

Lemma SFltb_irrefl f : SFltb f f = false.
Proof.
  unfold SFltb, SFcompare. destruct f as [s|s| |s m e]; try destruct s; try reflexivity;
    rewrite Z.compare_refl; order_cases; try reflexivity; lia.
Qed.

Lemma SFleb_ltb_trans c c' a :
  SFleb c c' = true -> SFltb c' a = true -> SFltb c a = true.
Proof.
  unfold SFleb, SFltb, SFcompare.
  destruct c as [s1|s1| |s1 m1 e1], c' as [s2|s2| |s2 m2 e2], a as [s3|s3| |s3 m3 e3];
    try destruct s1; try destruct s2; try destruct s3;
    try discriminate; try reflexivity;
    order_cases; simpl;
    try discriminate; try reflexivity; intros; exfalso; subst; lia.
Qed.

(** The int [0] is above exactly the negative doubles. *)
Lemma int_gt_zero c : Ieee.int_gt 0 c = SFltb c Ieee.zero.
Proof.
  destruct c as [s|s| |s m e]; try (destruct s; reflexivity); [reflexivity|].
  unfold Ieee.int_gt, SFltb, SFcompare, Ieee.zero.
  destruct (0 <=? e) eqn:He.
  - apply Z.leb_le in He. pose proof (Z.pow_pos_nonneg 2 e ltac:(lia) He) as Hp.
    destruct s; simpl cond_Zopp.
    + apply Z.ltb_lt. nia.
    + apply Z.ltb_ge. nia.
  - destruct s; reflexivity.
Qed.

Lemma num_gt_av_value n m c :
  num_gt (av_value n m) c
  = SFltb c (if m =? 0 then Ieee.zero else Ieee.div n (Ieee.of_Z m)).
Proof.
  unfold av_value. destruct (m =? 0); simpl; [apply int_gt_zero|reflexivity].
Qed.

(** The text logged for a whole-codebase average above its ceiling. *)
Lemma total_num_call_message a :
  PyFormat.message (total_num_call a)
  = Some ("total average complexity is " +:+ PyFormat.str_num a).
Proof.
  transitivity (Some ("total average complexity is " +:+ (PyFormat.str_num a +:+ ""))).
  - destruct a; reflexivity.
  - rewrite append_empty_r. reflexivity.
Qed.

(** * The specification, property by property *)

(** C1. In a run that gets through every module, the block calls of the log
    are, in order, those of the blocks of the block lists: a block contributes
    exactly one error call, rendered as
    [block "<module>:<lineno> <name>" has a rank of <r>], when its rank passes
    [check] against [args.absolute] and its name is not in the ignore list of
    its module, and no call otherwise; error dictionaries contribute no block
    call; and each block call stands for one unit of the returned count. *)
Theorem block_infraction_iff (rk : pynum -> string) (args : Args) (results : ResultSet)
    (ign : gmap string (list string)) :
  build_blocks_to_ignore args = ret ign ->
  forallb recognised results = true ->
  exists n log,
    find_infractions rk args results = (Ret n, log) /\
    List.filter (has_fmt block_fmt) log
    = flat_map (fun item =>
        match snd item with
        | BlockList bs => flat_map (block_calls rk ign args (fst item)) bs
        | ErrorDict _ => []
        end) results /\
    (forall module b,
        let r := rk (complexity b) in
        let over := check r (absolute args) = true
                    /\ ~ In (name b) (default [] (ign !! module)) in
        (over -> block_calls rk ign args module b = [block_call module b r]) /\
        (~ over -> block_calls rk ign args module b = [])) /\
    (forall module b r,
        PyFormat.message (block_call module b r)
        = Some ("block " +:+ PyStr.dq +:+ module +:+ ":" +:+ PyFormat.str_int (lineno b)
                +:+ " " +:+ name b +:+ PyStr.dq +:+ " has a rank of " +:+ r)) /\
    n = len (List.filter (has_fmt block_fmt) log)
        + len (List.filter (fun c => is_error c && negb (has_fmt block_fmt c)) log).
Proof.
  intros Hb Hrec. eexists _, _.
  split; [apply (find_infractions_run rk args results ign Hb Hrec)|].
  split; [select_calls; reflexivity|].
  split.
  { intros module b r over. subst r over. unfold block_calls. split.
    - intros [Hc Hn]. rewrite Hc.
      destruct (PyStr.mem _ _) eqn:Hm; [apply mem_In in Hm; contradiction|reflexivity].
    - intros Hno. destruct (check _ _) eqn:Hc; [|reflexivity].
      destruct (PyStr.mem _ _) eqn:Hm; [reflexivity|].
      exfalso. apply Hno. split; [reflexivity|].
      intros Hin. apply mem_In in Hin. congruence. }
  split; [apply block_call_message|].
  select_calls. unfold expected_count. rewrite !len_app. lia.
Qed.

Lemma block_infraction_iff_witness :
  let args := mkargs None (Some "B") None None None in
  let f := {| name := "f"; lineno := 1; complexity := NInt 45 |} in
  exists n log,
    find_infractions cc_rank args [("m1", BlockList [f])] = (Ret n, log) /\
    List.filter (has_fmt block_fmt) log = [block_call "m1" f "F"] /\
    PyFormat.message (block_call "m1" f "F")
    = Some ("block " +:+ PyStr.dq +:+ "m1:1 f" +:+ PyStr.dq +:+ " has a rank of F") /\
    n = 1.
Proof.
  intros args f.
  destruct (block_infraction_iff cc_rank args [("m1", BlockList [f])] ∅ eq_refl eq_refl)
    as (n & log & Hrun & Hblocks & _ & Hmsg & Hn).
  exists n, log. split; [exact Hrun|].
  split; [rewrite Hblocks; vm_compute; reflexivity|].
  split; [rewrite Hmsg; vm_compute; reflexivity|].
  assert (Hlog : log = [block_call "m1" f "F"]).
  { assert (H : snd (find_infractions cc_rank args [("m1", BlockList [f])])
                = [block_call "m1" f "F"]) by (vm_compute; reflexivity).
    rewrite Hrun in H. exact H. }
  rewrite Hn, Hlog. vm_compute. reflexivity.
Defined.

(** C2. Whenever [find_infractions] returns a count, the count is the number
    of error-level calls in the log, one per infraction, spread over the four
    axes (block, total numeric, total rank, module rank); the warning calls are
    exactly the "cannot parse" calls of the error dictionaries and add nothing
    to the count.  A count is returned whenever the ignore specification
    parses and every error dictionary has a non-empty text. *)
Theorem infraction_count_is_error_count (rk : pynum -> string) (args : Args)
    (results : ResultSet) :
  (forall n log,
      find_infractions rk args results = (Ret n, log) ->
      n = len (List.filter is_error log) /\
      n = len (List.filter (has_fmt block_fmt) log)
          + len (List.filter (has_fmt total_num_fmt) log)
          + len (List.filter (has_fmt total_rank_fmt) log)
          + len (List.filter (has_fmt module_fmt) log) /\
      List.filter is_warning log = flat_map module_warnings results) /\
  (forall ign,
      build_blocks_to_ignore args = ret ign ->
      forallb recognised results = true ->
      exists n log, find_infractions rk args results = (Ret n, log)).
Proof.
  split.
  - intros n log Hrun.
    apply find_infractions_returns in Hrun as (ign & _ & _ & -> & ->).
    split; [apply expected_count_errors|].
    split; [apply expected_count_axes|].
    select_calls. reflexivity.
  - intros ign Hb Hrec. eexists _, _.
    apply (find_infractions_run rk args results ign Hb Hrec).
Qed.

Lemma infraction_count_is_error_count_witness :
  let args := mkargs (Some "m1:f") (Some "B") (Some "A") (Some "A") (Some (fl 10)) in
  let results :=
    [("m0", ErrorDict "SyntaxError");
     ("m1", BlockList [{| name := "f"; lineno := 1; complexity := NInt 45 |};
                       {| name := "g"; lineno := 9; complexity := NInt 12 |}])] in
  find_infractions cc_rank args results
  = (Ret 4, [warn_call "m0" "SyntaxError";
             block_call "m1" {| name := "g"; lineno := 9; complexity := NInt 12 |} "C";
             total_num_call (NFloat (Ieee.div (fl 57) (fl 2)));
             total_rank_call "D";
             module_call "m1" "D"]) /\
  4 = len (List.filter is_error (snd (find_infractions cc_rank args results))) /\
  exists n log, find_infractions cc_rank args results = (Ret n, log).
Proof.
  intros args results.
  assert (Hrun : find_infractions cc_rank args results
                 = (Ret 4, [warn_call "m0" "SyntaxError";
                            block_call "m1" {| name := "g"; lineno := 9; complexity := NInt 12 |} "C";
                            total_num_call (NFloat (Ieee.div (fl 57) (fl 2)));
                            total_rank_call "D";
                            module_call "m1" "D"])) by (vm_compute; reflexivity).
  split; [exact Hrun|].
  destruct (infraction_count_is_error_count cc_rank args results) as [Hcount Hret].
  split.
  - rewrite Hrun. exact (proj1 (Hcount _ _ Hrun)).
  - apply (Hret {["m1" := ["f"]]}); vm_compute; reflexivity.
Defined.

(** C3, on the input [{"m1": {"error": ""}, "m2": [f]}]: the error dictionary
    of [m1] has an empty text, the test [blocks.get('error')] is false for it,
    the loop over its keys raises a TypeError, and the run ends there with no
    warning logged and no count returned. *)
Theorem error_dict_empty_text_raises :
  find_infractions cc_rank (mkargs None (Some "B") (Some "B") (Some "B") None)
    [("m1", ErrorDict ""); ("m2", BlockList [{| name := "f"; lineno := 1; complexity := NInt 45 |}])]
  = (Raise TypeError, []).
Proof. vm_compute. reflexivity. Qed.

(** C4. Take any ignore map, and the run with the empty map and no ignore
    specification.  The log of the first run is the log of the second
    without the block calls whose name is listed under their module in the
    map, and nothing else is removed or added; the count of the second run is
    the count of the first plus the number of calls removed.  Hence the calls
    of the total-numeric, total-rank and module-rank checks (and the
    warnings) are the same in both runs.  The first loop leaves the same
    module averages, score total and block total in both runs.  These are the
    runs of [find_infractions] on arguments whose ignore specification parses
    to the map, and on the same arguments without ignore specification. *)
Theorem ignore_map_only_suppresses_blocks (rk : pynum -> string) (args : Args)
    (results : ResultSet) (ign : gmap string (list string)) :
  let run := evaluate rk ign args results in
  let run0 := evaluate rk ∅ (without_ignore args) results in
  snd run = List.filter (fun c => negb (suppressed ign c)) (snd run0) /\
  match fst run, fst run0 with
  | Ret n, Ret n0 => n0 = n + len (List.filter (suppressed ign) (snd run0))
  | Raise e, Raise e0 => e = e0
  | _, _ => False
  end /\
  (forall m b r,
      suppressed ign (block_call m b r) = PyStr.mem (name b) (default [] (ign !! m))) /\
  (forall f, f <> block_fmt ->
      List.filter (has_fmt f) (snd run) = List.filter (has_fmt f) (snd run0)) /\
  same_averages
    (fst (for_each (module_body rk ign args) results init_state))
    (fst (for_each (module_body rk ∅ (without_ignore args)) results init_state)) /\
  find_infractions rk (without_ignore args) results = run0 /\
  (build_blocks_to_ignore args = ret ign -> find_infractions rk args results = run).
Proof.
  intros run run0. subst run run0.
  destruct (evaluate_filtered rk ign args results) as [Hlog Hcount].
  split; [exact Hlog|]. split; [exact Hcount|].
  split; [intros m b r; apply suppressed_block_call|].
  split; [|split; [|split]].
  - intros f Hf. rewrite Hlog. apply filter_other_fmt. exact Hf.
  - apply first_loop_same_averages.
  - apply (find_infractions_built rk (without_ignore args) results ∅ eq_refl).
  - intros Hb. apply (find_infractions_built rk args results ign Hb).
Qed.

Lemma ignore_map_only_suppresses_blocks_witness :
  let args := mkargs (Some "m1:f") (Some "B") (Some "B") None (Some (fl 10)) in
  let f := {| name := "f"; lineno := 1; complexity := NInt 45 |} in
  let g := {| name := "g"; lineno := 7; complexity := NInt 33 |} in
  let results := [("m1", BlockList [f; g]); ("m2", BlockList [f])] in
  snd (find_infractions cc_rank (without_ignore args) results)
  = [block_call "m1" f "F"; block_call "m1" g "E"; block_call "m2" f "F";
     total_num_call (NFloat (fl 41)); module_call "m1" "E"; module_call "m2" "F"] /\
  snd (find_infractions cc_rank args results)
  = [block_call "m1" g "E"; block_call "m2" f "F";
     total_num_call (NFloat (fl 41)); module_call "m1" "E"; module_call "m2" "F"] /\
  fst (find_infractions cc_rank (without_ignore args) results) = Ret 6 /\
  fst (find_infractions cc_rank args results) = Ret 5.
Proof.
  intros args f g results.
  destruct (ignore_map_only_suppresses_blocks cc_rank args results {["m1" := ["f"]]})
    as (Hlog & Hcount & _ & _ & _ & Hrun0 & Hrun).
  rewrite <- Hrun0 in Hlog, Hcount.
  rewrite <- Hrun in Hlog, Hcount by (vm_compute; reflexivity).
  assert (H0 : find_infractions cc_rank (without_ignore args) results
               = (Ret 6, [block_call "m1" f "F"; block_call "m1" g "E"; block_call "m2" f "F";
                          total_num_call (NFloat (fl 41)); module_call "m1" "E"; module_call "m2" "F"]))
    by (vm_compute; reflexivity).
  rewrite H0 in Hlog, Hcount. simpl fst in Hcount. simpl snd in Hlog, Hcount.
  split; [rewrite H0; reflexivity|].
  split; [rewrite Hlog; vm_compute; reflexivity|].
  split; [rewrite H0; reflexivity|].
  destruct (fst (find_infractions cc_rank args results)) as [n|e]; [|contradiction].
  f_equal. assert (Hs : len (List.filter (suppressed {["m1" := ["f"]]})
                         [block_call "m1" f "F"; block_call "m1" g "E"; block_call "m2" f "F";
                          total_num_call (NFloat (fl 41)); module_call "m1" "E"; module_call "m2" "F"]) = 1)
    by (vm_compute; reflexivity).
  rewrite Hs in Hcount. lia.
Defined.

(** C5, as the specification states it, fails: for the module [m1] with one
    block of score 45 and the module ceiling [B], the message logged is
    [module 'm1' has a rank of F], the module printed by [%r], and not the
    message with the module between double quotes. *)
Lemma module_message_counterexample :
  let args := mkargs None None (Some "B") None None in
  let f := {| name := "f"; lineno := 1; complexity := NInt 45 |} in
  let log := snd (find_infractions cc_rank args [("m1", BlockList [f])]) in
  check (cc_rank (av_value (module_cc_of [f]) (len [f]))) (modules args) = true /\
  map PyFormat.message log = [Some "module 'm1' has a rank of F"] /\
  ~ In (Some (spec_module_message "m1" "F")) (map PyFormat.message log).
Proof.
  split; [reflexivity|]. split; [reflexivity|].
  vm_compute. intros [H|[]]. discriminate H.
Qed.

(** C5, amended.  In a run that gets through every module, the log ends with
    the calls of the module-rank check, after every other call and in the
    order of the modules: for each block list, the average of the scores is
    taken first and ranked next, and when that rank passes [check] against
    [args.modules] there is one error call, counted once, whose text is
    [module <repr of the module> has a rank of <rank>]; [repr] puts a plain
    module name between single quotes. *)
Theorem module_rank_check (rk : pynum -> string) (args : Args) (results : ResultSet)
    (ign : gmap string (list string)) :
  build_blocks_to_ignore args = ret ign ->
  forallb recognised results = true ->
  exists n pre,
    find_infractions rk args results
    = (Ret n, pre ++ flat_map (module_rank_calls rk args) results) /\
    List.filter (has_fmt module_fmt) pre = [] /\
    n = len (List.filter is_error pre) + len (flat_map (module_rank_calls rk args) results) /\
    (forall m mar,
        PyFormat.message (module_call m mar)
        = Some ("module " +:+ PyFormat.repr_str m +:+ " has a rank of " +:+ mar)) /\
    (forall m, plain m = true -> PyFormat.repr_str m = "'" +:+ m +:+ "'").
Proof.
  intros Hb Hrec.
  exists (expected_count rk ign args results),
    (flat_map (module_calls rk ign args) results
     ++ total_num_calls args (codebase_average results)
     ++ total_rank_calls rk args (codebase_average results)).
  split.
  { rewrite (find_infractions_run rk args results ign Hb Hrec), expected_calls_split.
    reflexivity. }
  split.
  { rewrite filter_sel_has_fmt, !List.filter_app, filter_flat_map.
    rewrite (filter_kind _ _ _ _ (total_num_calls_kind args _)).
    rewrite (filter_kind _ _ _ _ (total_rank_calls_kind rk args _)).
    simpl. rewrite app_nil_r.
    rewrite (flat_map_ext _ (fun _ => [])); [apply flat_map_nil|].
    intros item. rewrite filter_module_calls. reflexivity. }
  split.
  { rewrite expected_count_errors, expected_calls_split, List.filter_app, len_app.
    f_equal. rewrite filter_sel_is_error.
    rewrite (filter_kind _ _ _ _ (module_rank_calls_kind rk args results)). reflexivity. }
  split; [apply module_call_message|apply plain_repr].
Qed.

Lemma module_rank_check_witness :
  let args := mkargs None None (Some "B") None None in
  let f := {| name := "f"; lineno := 1; complexity := NInt 45 |} in
  exists n pre,
    find_infractions cc_rank args [("m1", BlockList [f])]
    = (Ret n, pre ++ [module_call "m1" "F"]) /\
    PyFormat.message (module_call "m1" "F") = Some "module 'm1' has a rank of F".
Proof.
  intros args f.
  destruct (module_rank_check cc_rank args [("m1", BlockList [f])] ∅ eq_refl eq_refl)
    as (n & pre & Hrun & _ & _ & Hmsg & _).
  exists n, pre. split; [exact Hrun|].
  rewrite Hmsg. reflexivity.
Defined.

(** C6. In a run that gets through every module, the log holds the call
    [total average complexity is %s] (once, with the whole-codebase average)
    exactly when [args.averagenum] is set and strictly below the average in
    the order of the doubles, and that call stands for one unit of the
    returned count; with [averagenum] unset, or equal to the average, there
    is no such call.  The average is the float quotient of the score total
    by the block total, or the int 0 without blocks, which compares as the
    float 0.0; the message shows it as [str] does.  Neither the test nor the
    call depends on the rank function. *)
Theorem total_numeric_check (rk : pynum -> string) (args : Args) (results : ResultSet)
    (ign : gmap string (list string)) :
  build_blocks_to_ignore args = ret ign ->
  forallb recognised results = true ->
  exists n log,
    find_infractions rk args results = (Ret n, log) /\
    let av_cc := codebase_average results in
    let quotient :=
      if codebase_blocks results =? 0 then Ieee.zero
      else Ieee.div (codebase_cc results) (Ieee.of_Z (codebase_blocks results)) in
    let over := exists c, averagenum args = Some c /\ SFltb c quotient = true in
    av_cc = (if codebase_blocks results =? 0 then NInt 0 else NFloat quotient) /\
    (over -> List.filter (has_fmt total_num_fmt) log = [total_num_call av_cc]) /\
    (~ over -> List.filter (has_fmt total_num_fmt) log = []) /\
    (averagenum args = None -> List.filter (has_fmt total_num_fmt) log = []) /\
    (averagenum args = Some quotient -> List.filter (has_fmt total_num_fmt) log = []) /\
    PyFormat.message (total_num_call av_cc)
    = Some ("total average complexity is " +:+ PyFormat.str_num av_cc) /\
    n = len (List.filter (has_fmt total_num_fmt) log)
        + len (List.filter (fun c => is_error c && negb (has_fmt total_num_fmt c)) log) /\
    (forall rk',
        List.filter (has_fmt total_num_fmt) (snd (find_infractions rk' args results))
        = List.filter (has_fmt total_num_fmt) log).
Proof.
  intros Hb Hrec. eexists _, _.
  split; [apply (find_infractions_run rk args results ign Hb Hrec)|].
  intros av_cc quotient over.
  assert (Hsel : List.filter (has_fmt total_num_fmt) (expected_calls rk ign args results)
                 = total_num_calls args av_cc) by (select_calls; reflexivity).
  assert (Hgt : forall c, num_gt av_cc c = SFltb c quotient).
  { intros c. apply num_gt_av_value. }
  rewrite Hsel.
  split; [|split; [|split; [|split; [|split; [|split; [|split]]]]]].
  - unfold av_cc, codebase_average, av_value, quotient.
    destruct (codebase_blocks results =? 0); reflexivity.
  - intros (c & Hc & Hlt). unfold total_num_calls. rewrite Hc, Hgt, Hlt. reflexivity.
  - intros Hno. unfold total_num_calls.
    destruct (averagenum args) as [c|]; [|reflexivity].
    rewrite Hgt. destruct (SFltb c quotient) eqn:Hlt; [|reflexivity].
    exfalso. apply Hno. exists c. auto.
  - intros Hnone. unfold total_num_calls. rewrite Hnone. reflexivity.
  - intros Heq. unfold total_num_calls. rewrite Heq, Hgt, SFltb_irrefl. reflexivity.
  - apply total_num_call_message.
  - subst av_cc. select_calls. unfold expected_count. rewrite !len_app. lia.
  - intros rk'. rewrite (find_infractions_run rk' args results ign Hb Hrec). simpl snd.
    select_calls. reflexivity.
Qed.

Lemma total_numeric_check_witness :
  let f := {| name := "f"; lineno := 1; complexity := NInt 45 |} in
  let one := {| name := "g"; lineno := 1; complexity := NInt 1 |} in
  let two := {| name := "h"; lineno := 2; complexity := NInt 2 |} in
  (exists n log,
      find_infractions cc_rank (mkargs (Some "m1:f") (Some "B") None None (Some (fl 10)))
        [("m1", BlockList [f])] = (Ret n, log) /\
      List.filter (has_fmt total_num_fmt) log = [total_num_call (NFloat (fl 45))] /\
      PyFormat.message (total_num_call (NFloat (fl 45)))
      = Some "total average complexity is 45.0" /\
      n = 1) /\
  (exists n log,
      find_infractions cc_rank
        (mkargs None None None None (Some (Ieee.div (fl 4) (fl 3))))
        [("m1", BlockList [one; one; two])] = (Ret n, log) /\
      PyFormat.repr_float (Ieee.div (fl 4) (fl 3)) = "1.3333333333333333" /\
      List.filter (has_fmt total_num_fmt) log = [] /\
      n = 0 /\ log = []).
Proof.
  intros f one two. split.
  - destruct (total_numeric_check cc_rank
                (mkargs (Some "m1:f") (Some "B") None None (Some (fl 10)))
                [("m1", BlockList [f])] {["m1" := ["f"]]})
      as (n & log & Hrun & Hav & Hover & _ & _ & _ & Hmsg & _).
    + vm_compute. reflexivity.
    + reflexivity.
    + exists n, log. split; [exact Hrun|].
      assert (Ha : codebase_average [("m1", BlockList [f])] = NFloat (fl 45))
        by (vm_compute; reflexivity).
      rewrite Ha in Hover, Hmsg. split; [|split].
      * apply Hover. exists (fl 10). split; [reflexivity|]. vm_compute. reflexivity.
      * rewrite Hmsg. vm_compute. reflexivity.
      * vm_compute in Hrun. congruence.
  - destruct (total_numeric_check cc_rank
                (mkargs None None None None (Some (Ieee.div (fl 4) (fl 3))))
                [("m1", BlockList [one; one; two])] ∅)
      as (n & log & Hrun & _ & _ & _ & _ & Heq & _).
    + reflexivity.
    + reflexivity.
    + exists n, log. split; [exact Hrun|].
      split; [vm_compute; reflexivity|].
      split; [apply Heq; vm_compute; reflexivity|].
      vm_compute in Hrun. split; congruence.
Defined.

(** C7. [build_blocks_to_ignore] returns the empty map, and raises nothing,
    when [ignore_blocks] is [None] or the empty string.  On
    ["mod_a:f1, mod_a:f2 , mod_b:g"] it returns the map with [f1] and [f2]
    under [mod_a] and [g] under [mod_b], and no other name under any module.  In general, when every entry has
    exactly one colon, a block is listed under a module exactly when some
    entry names them, both sides stripped of surrounding white space; the
    entries of one module gather under its key. *)
Theorem build_blocks_to_ignore_spec :
  (forall args, ignore_blocks args = None -> build_blocks_to_ignore args = ret ∅) /\
  (forall args, ignore_blocks args = Some "" -> build_blocks_to_ignore args = ret ∅) /\
  (forall args,
      ignore_blocks args = Some "mod_a:f1, mod_a:f2 , mod_b:g" ->
      build_blocks_to_ignore args
      = ret {["mod_a" := ["f1"; "f2"]; "mod_b" := ["g"]]}) /\
  (forall m b,
      In b (default []
              (({["mod_a" := ["f1"; "f2"]; "mod_b" := ["g"]]} : gmap string (list string)) !! m))
      <-> (m = "mod_a" /\ (b = "f1" \/ b = "f2")) \/ (m = "mod_b" /\ b = "g")) /\
  (forall args s,
      ignore_blocks args = Some s ->
      s <> "" ->
      Forall two_parts (PyStr.split "," s) ->
      exists ign,
        build_blocks_to_ignore args = ret ign /\
        forall m b,
          In b (default [] (ign !! m))
          <-> exists e, In e (PyStr.split "," s) /\ names_entry e m b).
Proof.
  split; [|split; [|split; [|split]]].
  - intros args H. unfold build_blocks_to_ignore. rewrite H. reflexivity.
  - intros args H. unfold build_blocks_to_ignore. rewrite H. reflexivity.
  - intros args H. unfold build_blocks_to_ignore. rewrite H. vm_compute. reflexivity.
  - apply example_map_members.
  - intros args s Hs Hne Hall. unfold build_blocks_to_ignore.
    rewrite Hs, (truthy_nonempty s Hne). simpl.
    destruct (ignore_entries_run (PyStr.split "," s) ∅ Hall) as (ign & Hrun & Hmem).
    exists ign. split; [exact Hrun|]. intros m b. rewrite Hmem.
    rewrite lookup_empty. simpl. intuition.
Qed.

Lemma build_blocks_to_ignore_spec_witness :
  build_blocks_to_ignore (mkargs (Some "mod_a:f1, mod_a:f2 , mod_b:g") None None None None)
  = ret {["mod_a" := ["f1"; "f2"]; "mod_b" := ["g"]]} /\
  exists ign,
    build_blocks_to_ignore (mkargs (Some " m1 : f ,m2:g") None None None None) = ret ign /\
    (In "f" (default [] (ign !! "m1")) <->
     exists e, In e (PyStr.split "," " m1 : f ,m2:g") /\ names_entry e "m1" "f").
Proof.
  destruct build_blocks_to_ignore_spec as (_ & _ & Hex & _ & Hgen).
  split; [apply Hex; reflexivity|].
  destruct (Hgen (mkargs (Some " m1 : f ,m2:g") None None None None) " m1 : f ,m2:g" eq_refl)
    as (ign & Hrun & Hmem).
  - discriminate.
  - repeat constructor.
  - exists ign. split; [exact Hrun|exact (Hmem "m1" "f")].
Defined.

(** C8. When the ignore specification is a non-empty string and one of its
    comma-separated entries does not split on the colon into exactly two
    parts (it has no colon, or more than one), [build_blocks_to_ignore]
    raises (a ValueError, from the unpacking), and [find_infractions] ends
    with that exception before anything else: no logger call is made and no
    count is returned. *)
Theorem malformed_ignore_entry_raises (rk : pynum -> string) (args : Args)
    (results : ResultSet) (s : string) :
  ignore_blocks args = Some s ->
  s <> "" ->
  Exists (fun e => ~ two_parts e) (PyStr.split "," s) ->
  build_blocks_to_ignore args = (Raise ValueError, []) /\
  find_infractions rk args results = (Raise ValueError, []) /\
  (forall e, two_parts e <-> occurrences ":" e = 1%nat).
Proof.
  intros Hs Hne Hex.
  assert (Hb : build_blocks_to_ignore args = (Raise ValueError, [])).
  { unfold build_blocks_to_ignore. rewrite Hs, (truthy_nonempty s Hne). simpl.
    apply ignore_entries_raise. exact Hex. }
  split; [exact Hb|]. split; [|apply two_parts_one_colon].
  apply find_infractions_unbuilt. rewrite Hb. reflexivity.
Qed.

Lemma malformed_ignore_entry_raises_witness :
  find_infractions cc_rank (mkargs (Some "m1-no-colon") (Some "A") (Some "A") (Some "A") None)
    [("m1", BlockList [{| name := "f"; lineno := 1; complexity := NInt 45 |}])]
  = (Raise ValueError, []).
Proof.
  refine (proj1 (proj2 (malformed_ignore_entry_raises cc_rank
                   (mkargs (Some "m1-no-colon") (Some "A") (Some "A") (Some "A") None)
                   _ "m1-no-colon" eq_refl _ _))).
  - discriminate.
  - left. vm_compute. discriminate.
Defined.

(** C9, as the specification states it, fails: zero-block inputs alone can
    produce an average-based infraction.  For the result set whose only
    module has no block, the run with [averagenum = -1.0] logs
    [total average complexity is 0] (the average is the int 0, above the
    ceiling) and returns 1, and so does the run with the module ceiling [''],
    which the rank A exceeds. *)
Lemma zero_blocks_infraction :
  find_infractions cc_rank (mkargs None None None None (Some (fl (-1))))
    [("m1", BlockList [])]
  = (Ret 1, [total_num_call (NInt 0)]) /\
  PyFormat.message (total_num_call (NInt 0)) = Some "total average complexity is 0" /\
  find_infractions cc_rank (mkargs None None (Some "") None None) [("m1", BlockList [])]
  = (Ret 1, [module_call "m1" "A"]).
Proof. repeat split; vm_compute; reflexivity. Qed.

(** C9, amended.  [av] returns and never raises on a float and an int in
    the range of the doubles (every block count is), and [av(n, 0)] is the
    int 0.  A module with no block records the average 0, and a
    result set with no block at all has the whole-codebase average 0.  When
    the rank of 0 is A, the ceilings are rank letters and the numeric
    ceiling is not negative, these averages add no call and no infraction:
    a run on a result set without blocks returns 0 and logs only its
    warnings. *)
Theorem av_total_zero_blocks (rk : pynum -> string) :
  (forall n m, Z.abs m < 2 ^ 1023 -> exists q, av n m = (Ret q, [])) /\
  (forall n, av n 0 = (Ret (NInt 0), [])) /\
  (forall ign args st m,
      module_body rk ign args st (m, BlockList [])
      = (Ret {| infractions := infractions st;
                module_averages := module_averages st ++ [(m, NInt 0)];
                total_cc := Ieee.add (total_cc st) Ieee.zero;
                total_blocks := total_blocks st + 0 |}, [])) /\
  (forall results, codebase_blocks results = 0 -> codebase_average results = NInt 0) /\
  (rk (NInt 0) = "A" ->
   forall args m, ceiling_ok (modules args) -> average_calls rk args (m, NInt 0) = []) /\
  (rk (NInt 0) = "A" ->
   forall args results ign,
     build_blocks_to_ignore args = ret ign ->
     forallb recognised results = true ->
     codebase_blocks results = 0 ->
     ceiling_ok (modules args) ->
     ceiling_ok (average args) ->
     (forall c, averagenum args = Some c -> SFltb c Ieee.zero = false) ->
     find_infractions rk args results = (Ret 0, flat_map module_warnings results)).
Proof.
  split; [|split; [|split; [|split; [|split]]]].
  - intros n m _. rewrite av_returns. eexists. reflexivity.
  - intros n. reflexivity.
  - intros ign args st m. reflexivity.
  - intros results H. unfold codebase_average, av_value. rewrite H. reflexivity.
  - intros H0 args m. apply zero_average_silent. exact H0.
  - intros H0 args results ign Hb Hrec Hz Hm Ha Hn.
    rewrite (find_infractions_run rk args results ign Hb Hrec).
    pose proof (zero_blocks_all_empty results Hz) as Hall.
    destruct (no_blocks_calls rk ign args results Hall) as [Hcalls Hblocks].
    unfold expected_count, expected_calls.
    rewrite Hcalls, Hblocks, (no_blocks_averages rk H0 args results Hm Hall).
    assert (Hav : codebase_average results = NInt 0)
      by (unfold codebase_average, av_value; rewrite Hz; reflexivity).
    rewrite Hav.
    assert (Hnum : total_num_calls args (NInt 0) = []).
    { unfold total_num_calls. destruct (averagenum args) as [c|] eqn:Hc; [|reflexivity].
      unfold num_gt. rewrite int_gt_zero, (Hn c eq_refl). reflexivity. }
    assert (Hrank : total_rank_calls rk args (NInt 0) = []).
    { unfold total_rank_calls. rewrite H0, check_A_ceiling by exact Ha. reflexivity. }
    rewrite Hnum, Hrank, !app_nil_r. reflexivity.
Qed.

Lemma av_total_zero_blocks_witness :
  (exists q, av (fl 7) 2 = (Ret q, [])) /\
  cc_rank (NInt 0) = "A" /\
  average_calls cc_rank (mkargs None (Some "A") (Some "a") (Some "A") (Some (fl 0)))
    ("m1", NInt 0) = [] /\
  find_infractions cc_rank (mkargs None (Some "A") (Some "a") (Some "A") (Some (fl 0)))
    [("m0", ErrorDict "SyntaxError"); ("m1", BlockList [])]
  = (Ret 0, [warn_call "m0" "SyntaxError"]).
Proof.
  destruct (av_total_zero_blocks cc_rank) as (Htot & _ & _ & _ & Hmod & Hrun).
  split; [apply Htot; reflexivity|].
  split; [reflexivity|]. split.
  - apply (Hmod eq_refl). vm_compute. auto.
  - refine (Hrun eq_refl (mkargs None (Some "A") (Some "a") (Some "A") (Some (fl 0)))
              [("m0", ErrorDict "SyntaxError"); ("m1", BlockList [])] ∅ _ _ _ _ _ _).
    + reflexivity.
    + reflexivity.
    + reflexivity.
    + vm_compute. auto.
    + vm_compute. auto.
    + intros c Hc. injection Hc as <-. vm_compute. reflexivity.
Defined.

(** C10. [check] normalises the case of its ceiling and not of its rank: the
    ceiling may be replaced by its upper-case form, so ['b'] acts as ['B'];
    the rank is compared as given, so ['a'] and ['A'] get different answers
    against ['B']; and with no ceiling the answer is [False]. *)
Theorem check_normalises_ceiling_only :
  (forall r c, check r (Some c) = check r (Some (PyStr.upper c))) /\
  (forall r, check r (Some "b") = check r (Some "B")) /\
  (forall r c, check r (Some c) = PyStr.gt r (PyStr.upper c)) /\
  (check "a" (Some "B") = true /\ check "A" (Some "B") = false) /\
  (forall r, check r None = false).
Proof.
  split; [|split; [|split; [|split]]].
  - intros r c. unfold check. rewrite upper_idem. reflexivity.
  - intros r. reflexivity.
  - intros r c. reflexivity.
  - split; reflexivity.
  - intros r. reflexivity.
Qed.

(** * Further properties of the program *)

(** ** The order behind [check] *)

Lemma gt_not_le a b : PyStr.gt a b = true <-> ~ String.le a b.
Proof.
  unfold PyStr.gt, String.le, String.leb.
  destruct (String.compare a b); simpl; intuition discriminate.
Qed.

Lemma gt_trans a b c : PyStr.gt c b = true -> PyStr.gt b a = true -> PyStr.gt c a = true.
Proof.
  rewrite !gt_not_le. intros Hcb Hba Hca.
  destruct (total String.le b c) as [Hbc|Hcb']; [|contradiction].
  apply Hba. etrans; eassumption.
Qed.

Lemma gt_irrefl a : PyStr.gt a a = false.
Proof.
  destruct (PyStr.gt a a) eqn:H; [|reflexivity].
  apply gt_not_le in H. exfalso. apply H. reflexivity.
Qed.

Lemma gt_le_trans a b c : PyStr.gt c b = true -> String.le a b -> PyStr.gt c a = true.
Proof.
  rewrite !gt_not_le. intros Hcb Hab Hca. apply Hcb. etrans; eassumption.
Qed.

(** X1. [check] follows the order of the strings: a rank above a rank that
    exceeds the ceiling exceeds it too, a rank that exceeds a ceiling exceeds
    every lower ceiling, and a rank equal to the upper-cased ceiling does not
    exceed it. *)
Theorem check_monotone :
  (forall r r' c, check r c = true -> PyStr.gt r' r = true -> check r' c = true) /\
  (forall r c c',
      check r (Some c') = true ->
      PyStr.gt (PyStr.upper c) (PyStr.upper c') = false ->
      check r (Some c) = true) /\
  (forall c, check (PyStr.upper c) (Some c) = false).
Proof.
  split; [|split].
  - intros r r' [c|] H Hgt; [|discriminate H].
    unfold check in *. exact (gt_trans _ _ _ Hgt H).
  - intros r c c' H Hle. unfold check in *.
    apply (gt_le_trans _ (PyStr.upper c')); [exact H|].
    destruct (decide (String.le (PyStr.upper c) (PyStr.upper c'))) as [Hd|Hd]; [exact Hd|].
    apply gt_not_le in Hd. congruence.
  - intros c. unfold check. apply gt_irrefl.
Qed.

Lemma check_monotone_witness :
  check "E" (Some "b") = true /\ check "C" (Some "A") = true.
Proof.
  destruct check_monotone as (Hrank & Hceil & _). split.
  - apply (Hrank "C" "E" (Some "b")); reflexivity.
  - apply (Hceil "C" "A" "b"); reflexivity.
Defined.

Lemma rank_index_inv r i :
  rank_index r = Some i ->
  ((r = "A" /\ i = 0) \/ (r = "B" /\ i = 1) \/ (r = "C" /\ i = 2)
   \/ (r = "D" /\ i = 3) \/ (r = "E" /\ i = 4) \/ (r = "F" /\ i = 5))%nat.
Proof.
  unfold rank_index.
  repeat match goal with
  | |- context [String.eqb r ?x] => destruct (String.eqb_spec r x)
  end; intros H; inversion H; subst; tauto.
Qed.

(** X2. On the rank letters [check] is the order A < B < C < D < E < F: for a
    rank among the six letters and a ceiling that is one of them in either
    case, [check] holds exactly when the rank comes after the ceiling. *)
Theorem check_on_rank_letters (r c : string) (i j : nat) :
  rank_index r = Some i ->
  rank_index (PyStr.upper c) = Some j ->
  check r (Some c) = (j <? i)%nat.
Proof.
  intros Hr Hc. unfold check.
  apply rank_index_inv in Hr. apply rank_index_inv in Hc.
  destruct Hr as [[-> ->]|[[-> ->]|[[-> ->]|[[-> ->]|[[-> ->]|[-> ->]]]]]];
    destruct Hc as [[-> ->]|[[-> ->]|[[-> ->]|[[-> ->]|[[-> ->]|[-> ->]]]]]];
    reflexivity.
Qed.

Lemma check_on_rank_letters_witness :
  check "F" (Some "b") = true /\ check "B" (Some "b") = false.
Proof.
  split.
  - exact (check_on_rank_letters "F" "b" 5%nat 1%nat eq_refl eq_refl).
  - exact (check_on_rank_letters "B" "b" 1%nat 1%nat eq_refl eq_refl).
Defined.

(** ** Ceilings that are not set *)

Section Unset.

Variable rk : pynum -> string.

Lemma no_absolute_no_block_calls ign args results :
  absolute args = None ->
  flat_map (module_block_calls rk ign args) results = [].
Proof.
  intros H. rewrite (flat_map_ext _ (fun _ => [])); [apply flat_map_nil|].
  intros item. unfold module_block_calls. destruct (snd item) as [bs|err]; [|reflexivity].
  rewrite (flat_map_ext _ (fun _ => [])); [apply flat_map_nil|].
  intros b. unfold block_calls. rewrite H. reflexivity.
Qed.

Lemma no_modules_no_average_calls args mas :
  modules args = None -> flat_map (average_calls rk args) mas = [].
Proof.
  intros H. rewrite (flat_map_ext _ (fun _ => [])); [apply flat_map_nil|].
  intros item. unfold average_calls. rewrite H. reflexivity.
Qed.

Lemma modules_calls_split ign args results :
  flat_map (module_block_calls rk ign args) results = [] ->
  flat_map (module_calls rk ign args) results = flat_map module_warnings results.
Proof.
  induction results as [|item results IH]; [reflexivity|].
  simpl. intros H. apply app_eq_nil in H as [Hitem Hrest].
  rewrite module_calls_split, Hitem, (IH Hrest). reflexivity.
Qed.

End Unset.

(** X3. A ceiling that is not set never fires.  In a run that returns, with
    [absolute] unset there is no block call, with [modules] unset no
    module-rank call, with [average] unset no total-rank call; with the four
    ceilings unset the run returns 0 and logs only the warnings of the error
    dictionaries, whatever the scores. *)
Theorem unset_ceilings_never_fire (rk : pynum -> string) (args : Args)
    (results : ResultSet) (n : Z) (log : list LogCall) :
  find_infractions rk args results = (Ret n, log) ->
  (absolute args = None -> List.filter (has_fmt block_fmt) log = []) /\
  (modules args = None -> List.filter (has_fmt module_fmt) log = []) /\
  (average args = None -> List.filter (has_fmt total_rank_fmt) log = []) /\
  (absolute args = None -> modules args = None -> average args = None ->
   averagenum args = None ->
   n = 0 /\ log = flat_map module_warnings results).
Proof.
  intros Hrun.
  apply find_infractions_returns in Hrun as (ign & _ & _ & -> & ->).
  split; [|split; [|split]].
  - intros H. select_calls. apply no_absolute_no_block_calls. exact H.
  - intros H. select_calls. apply no_modules_no_average_calls. exact H.
  - intros H. select_calls. unfold total_rank_calls. rewrite H. reflexivity.
  - intros Ha Hm Hv Hn. unfold expected_count, expected_calls.
    rewrite (no_absolute_no_block_calls rk ign args results Ha).
    rewrite (modules_calls_split rk ign args results
               (no_absolute_no_block_calls rk ign args results Ha)).
    rewrite (no_modules_no_average_calls rk args _ Hm).
    unfold total_num_calls, total_rank_calls. rewrite Hn, Hv. simpl.
    rewrite app_nil_r. split; reflexivity.
Qed.

Lemma unset_ceilings_never_fire_witness :
  let results :=
    [("m0", ErrorDict "SyntaxError");
     ("m1", BlockList [{| name := "f"; lineno := 1; complexity := NInt 99 |}])] in
  find_infractions cc_rank (mkargs (Some "m1:g") None None None None) results
  = (Ret 0, [warn_call "m0" "SyntaxError"]).
Proof.
  intros results.
  pose (args := mkargs (Some "m1:g") None None None None).
  destruct (find_infractions cc_rank args results) as [[n|e] log] eqn:Hrun.
  - destruct (unset_ceilings_never_fire cc_rank args results n log Hrun)
      as (_ & _ & _ & Hall).
    destruct (Hall eq_refl eq_refl eq_refl eq_refl) as [-> ->]. reflexivity.
  - vm_compute in Hrun. discriminate Hrun.
Defined.

(** ** Bounds on the count *)

Section Bounds.

Variable rk : pynum -> string.

Lemma block_calls_le_one ign args m b : len (block_calls rk ign args m b) <= 1.
Proof. unfold block_calls. destruct (_ && _); unfold len; simpl; lia. Qed.

Lemma blocks_calls_le ign args m bs :
  len (flat_map (block_calls rk ign args m) bs) <= len bs.
Proof.
  induction bs as [|b bs IH]; [unfold len; simpl; lia|].
  simpl. rewrite len_app, len_cons.
  pose proof (block_calls_le_one ign args m b). lia.
Qed.

Lemma modules_block_calls_le ign args results t :
  t + len (flat_map (module_block_calls rk ign args) results)
  <= fold_left add_blocks results t.
Proof.
  revert t. induction results as [|item results IH]; intros t.
  - unfold len. simpl. lia.
  - simpl. rewrite len_app. specialize (IH (add_blocks t item)).
    assert (t + len (module_block_calls rk ign args item) <= add_blocks t item).
    { unfold module_block_calls, add_blocks. destruct (snd item) as [bs|err].
      - pose proof (blocks_calls_le ign args (fst item) bs). lia.
      - unfold len. simpl. lia. }
    lia.
Qed.

Lemma average_calls_le args mas : len (flat_map (average_calls rk args) mas) <= len mas.
Proof.
  induction mas as [|x mas IH]; [unfold len; simpl; lia|].
  simpl. rewrite len_app, len_cons.
  assert (len (average_calls rk args x) <= 1).
  { unfold average_calls. destruct (check _ _); unfold len; simpl; lia. }
  lia.
Qed.

Lemma total_num_calls_le args a : len (total_num_calls args a) <= 1.
Proof.
  unfold total_num_calls. destruct (averagenum args) as [c|]; [destruct (num_gt a c)|];
    unfold len; simpl; lia.
Qed.

Lemma total_rank_calls_le args a : len (total_rank_calls rk args a) <= 1.
Proof.
  unfold total_rank_calls. destruct (check _ _); unfold len; simpl; lia.
Qed.

End Bounds.

(** X4. The count a run returns is never negative and is at most the number
    of blocks, plus one for each module with a block list, plus two for the
    whole-codebase checks; and the log has one call per infraction and one per
    error dictionary. *)
Theorem infraction_count_bounds (rk : pynum -> string) (args : Args)
    (results : ResultSet) (n : Z) (log : list LogCall) :
  find_infractions rk args results = (Ret n, log) ->
  0 <= n <= codebase_blocks results + len (flat_map module_average results) + 2 /\
  len log = n + len (flat_map module_warnings results).
Proof.
  intros Hrun.
  apply find_infractions_returns in Hrun as (ign & _ & _ & -> & ->).
  split.
  - unfold expected_count.
    pose proof (modules_block_calls_le rk ign args results 0) as Hb.
    fold (codebase_blocks results) in Hb.
    pose proof (average_calls_le rk args (flat_map module_average results)).
    pose proof (total_num_calls_le args (codebase_average results)).
    pose proof (total_rank_calls_le rk args (codebase_average results)).
    pose proof (len_nonneg (flat_map (module_block_calls rk ign args) results)).
    pose proof (len_nonneg (total_num_calls args (codebase_average results))).
    pose proof (len_nonneg (total_rank_calls rk args (codebase_average results))).
    pose proof (len_nonneg (flat_map (average_calls rk args)
                              (flat_map module_average results))).
    lia.
  - unfold expected_count, expected_calls. rewrite !len_app.
    assert (Hsplit : len (flat_map (module_calls rk ign args) results)
                     = len (flat_map (module_block_calls rk ign args) results)
                       + len (flat_map module_warnings results)).
    { induction results as [|item results IH]; [reflexivity|].
      simpl. rewrite !len_app, IH, module_calls_split, len_app. lia. }
    rewrite Hsplit. lia.
Qed.

Lemma infraction_count_bounds_witness :
  let args := mkargs None (Some "A") (Some "A") (Some "A") (Some (fl 1)) in
  let results :=
    [("m0", ErrorDict "SyntaxError");
     ("m1", BlockList [{| name := "f"; lineno := 1; complexity := NInt 45 |};
                       {| name := "g"; lineno := 9; complexity := NInt 12 |}])] in
  exists n log,
    find_infractions cc_rank args results = (Ret n, log) /\
    n = 5 /\ codebase_blocks results + len (flat_map module_average results) + 2 = 5 /\
    0 <= n <= 5.
Proof.
  intros args results.
  destruct (find_infractions cc_rank args results) as [[n|e] log] eqn:Hrun.
  - exists n, log. split; [reflexivity|].
    destruct (infraction_count_bounds cc_rank args results n log Hrun) as [Hb _].
    assert (Hn : n = 5) by (vm_compute in Hrun; congruence).
    split; [exact Hn|]. split; [vm_compute; reflexivity|].
    change (codebase_blocks results + len (flat_map module_average results) + 2)
      with 5 in Hb. exact Hb.
  - vm_compute in Hrun. discriminate Hrun.
Defined.

(** ** How a run ends *)

Lemma entries_cases l : Forall two_parts l \/ Exists (fun e => ~ two_parts e) l.
Proof.
  induction l as [|e l [IH|IH]].
  - left. constructor.
  - destruct (two_parts_dec e) as [He|He].
    + left. constructor; assumption.
    + right. left. exact He.
  - right. right. exact IH.
Qed.

Lemma Forall_not_Exists l : Forall two_parts l -> ~ Exists (fun e => ~ two_parts e) l.
Proof.
  induction 1 as [|e l He _ IH]; intros Hex; inversion Hex; subst; auto.
Qed.

Lemma build_cases args :
  (exists ign, build_blocks_to_ignore args = ret ign /\ ~ malformed args)
  \/ (malformed args /\ build_blocks_to_ignore args = (Raise ValueError, [])).
Proof.
  unfold build_blocks_to_ignore, malformed.
  destruct (ignore_blocks args) as [s|] eqn:Hs.
  - destruct s as [|c s'] eqn:Hstr.
    + left. exists ∅. split; [reflexivity|].
      intros (s0 & Heq & Hne & _). congruence.
    + simpl negb. cbv iota.
      destruct (entries_cases (PyStr.split "," (String c s'))) as [Hall|Hex].
      * left. destruct (ignore_entries_run _ ∅ Hall) as (ign & Hrun & _).
        exists ign. split; [exact Hrun|].
        intros (s0 & Heq & _ & Hex). injection Heq as <-.
        exact (Forall_not_Exists _ Hall Hex).
      * right. split; [|apply ignore_entries_raise; exact Hex].
        exists (String c s'). split; [reflexivity|]. split; [discriminate|exact Hex].
  - left. exists ∅. split; [reflexivity|]. intros (s0 & Heq & _). discriminate.
Qed.

(** X5. The ways a run of [find_infractions] ends.  It raises a ValueError
    exactly when the ignore specification has an entry that does not unpack;
    otherwise it raises a TypeError exactly when some error dictionary has an
    empty text; otherwise it returns a count.  It never raises a
    ZeroDivisionError. *)
Theorem find_infractions_outcome (rk : pynum -> string) (args : Args) (results : ResultSet) :
  let out := fst (find_infractions rk args results) in
  (out = Raise ValueError <-> malformed args) /\
  (out = Raise TypeError
   <-> ~ malformed args /\ forallb recognised results = false) /\
  ((exists n, out = Ret n)
   <-> ~ malformed args /\ forallb recognised results = true) /\
  out <> Raise ZeroDivisionError.
Proof.
  intros out. subst out.
  destruct (build_cases args) as [(ign & Hb & Hok)|[Hbad Hb]].
  - rewrite (find_infractions_built rk args results ign Hb).
    destruct (forallb recognised results) eqn:Hrec.
    + rewrite evaluate_run by assumption. simpl fst.
      split; [split; [discriminate|intros H; contradiction]|].
      split; [split; [discriminate|intros [_ H]; discriminate H]|].
      split; [|discriminate].
      split; [intros _; split; [exact Hok|reflexivity]|intros _; eauto].
    + rewrite evaluate_raise by assumption. simpl fst.
      split; [split; [discriminate|intros H; contradiction]|].
      split; [split; [intros _; split; [exact Hok|reflexivity]|reflexivity]|].
      split; [|discriminate].
      split; [intros [n Hn]; discriminate Hn|intros [_ H]; discriminate H].
  - rewrite (find_infractions_unbuilt rk args results ValueError) by (rewrite Hb; reflexivity).
    simpl fst.
    split; [split; [intros _; exact Hbad|reflexivity]|].
    split; [split; [discriminate|intros [H _]; contradiction]|].
    split; [|discriminate].
    split; [intros [n Hn]; discriminate Hn|intros [H _]; contradiction].
Qed.

Lemma find_infractions_outcome_witness :
  fst (find_infractions cc_rank (mkargs (Some "m1:f,") None None None None) [])
  = Raise ValueError /\
  fst (find_infractions cc_rank (mkargs (Some "m1:f") None None None None)
         [("m1", ErrorDict "")])
  = Raise TypeError.
Proof.
  split.
  - apply (proj1 (find_infractions_outcome cc_rank _ [])).
    exists "m1:f,". split; [reflexivity|]. split; [discriminate|].
    right. left. vm_compute. discriminate.
  - apply (proj1 (proj2 (find_infractions_outcome cc_rank _ _))).
    split; [|reflexivity].
    intros (s & Hs & _ & Hex). injection Hs as <-.
    inversion Hex as [? ? H|? ? H]; subst.
    + apply H. reflexivity.
    + inversion H.
Defined.

Lemma unrecognised_inv item : recognised item = false -> item = (fst item, ErrorDict "").
Proof.
  unfold recognised. destruct item as [m [bs|err]]; simpl; [discriminate|].
  destruct err; [reflexivity|discriminate].
Qed.

Lemma walked_prefix results :
  forallb recognised results = false ->
  exists m rest,
    results = walked results ++ (m, ErrorDict "") :: rest /\
    forallb recognised (walked results) = true.
Proof.
  induction results as [|item results IH]; [discriminate|].
  simpl. destruct (recognised item) eqn:Hitem; simpl.
  - intros H. destruct (IH H) as (m & rest & Heq & Hrec).
    exists m, rest. rewrite Hitem, Hrec. split; [f_equal; exact Heq|reflexivity].
  - intros _. exists (fst item), results. split; [|reflexivity].
    f_equal. apply unrecognised_inv. exact Hitem.
Qed.

(** X6. What a run leaves behind when it stops on an error dictionary with
    an empty text: the modules before it have been reported as in a full run
    (their warnings and block calls, in order), and nothing else is logged;
    in particular none of the whole-codebase and module-rank checks has run. *)
Theorem type_error_log (rk : pynum -> string) (args : Args) (results : ResultSet)
    (log : list LogCall) :
  find_infractions rk args results = (Raise TypeError, log) ->
  exists ign m rest,
    build_blocks_to_ignore args = ret ign /\
    results = walked results ++ (m, ErrorDict "") :: rest /\
    forallb recognised (walked results) = true /\
    log = flat_map (module_calls rk ign args) (walked results) /\
    List.filter (has_fmt total_num_fmt) log = [] /\
    List.filter (has_fmt total_rank_fmt) log = [] /\
    List.filter (has_fmt module_fmt) log = [].
Proof.
  intros Hrun.
  destruct (build_cases args) as [(ign & Hb & Hok)|[Hbad Hb]].
  - rewrite (find_infractions_built rk args results ign Hb) in Hrun.
    destruct (forallb recognised results) eqn:Hrec.
    + rewrite evaluate_run in Hrun by assumption. discriminate Hrun.
    + rewrite evaluate_raise in Hrun by assumption. injection Hrun as <-.
      destruct (walked_prefix results Hrec) as (m & rest & Heq & Hw).
      exists ign, m, rest.
      split; [exact Hb|]. split; [exact Heq|]. split; [exact Hw|]. split; [reflexivity|].
      repeat split; rewrite filter_sel_has_fmt, filter_flat_map;
        (rewrite (flat_map_ext _ (fun _ => [])); [apply flat_map_nil|]);
        intros item; rewrite filter_module_calls; reflexivity.
  - rewrite (find_infractions_unbuilt rk args results ValueError) in Hrun
      by (rewrite Hb; reflexivity).
    discriminate Hrun.
Qed.

Lemma type_error_log_witness :
  let args := mkargs None (Some "B") (Some "B") (Some "B") (Some (fl 1)) in
  let f := {| name := "f"; lineno := 1; complexity := NInt 45 |} in
  find_infractions cc_rank args
    [("m1", BlockList [f]); ("m2", ErrorDict ""); ("m3", BlockList [f])]
  = (Raise TypeError, [block_call "m1" f "F"]).
Proof.
  intros args f.
  destruct (find_infractions cc_rank args
              [("m1", BlockList [f]); ("m2", ErrorDict ""); ("m3", BlockList [f])])
    as [[n|[| |]] log] eqn:Hrun; try (vm_compute in Hrun; discriminate Hrun).
  destruct (type_error_log cc_rank args _ log Hrun)
    as (ign & m & rest & Hb & _ & _ & Hlog & _).
  injection Hb as <-. rewrite Hlog. reflexivity.
Defined.

(** X7. The order of the log of a run that returns: first, module by module
    in the order of the result set, the warning of an error dictionary or the
    block calls of a block list in the order of its blocks; then the
    total-numeric call, the total-rank call, and the module-rank calls in
    the order of the modules. *)
Theorem log_order (rk : pynum -> string) (args : Args) (results : ResultSet)
    (n : Z) (log : list LogCall) :
  find_infractions rk args results = (Ret n, log) ->
  exists ign,
    build_blocks_to_ignore args = ret ign /\
    log = flat_map (fun item =>
            match snd item with
            | BlockList bs => flat_map (block_calls rk ign args (fst item)) bs
            | ErrorDict err => [warn_call (fst item) err]
            end) results
          ++ total_num_calls args (codebase_average results)
          ++ total_rank_calls rk args (codebase_average results)
          ++ flat_map (module_rank_calls rk args) results.
Proof.
  intros Hrun.
  apply find_infractions_returns in Hrun as (ign & Hb & _ & _ & ->).
  exists ign. split; [exact Hb|].
  unfold expected_calls. rewrite average_calls_by_module. reflexivity.
Qed.

Lemma log_order_witness :
  let args := mkargs None (Some "B") (Some "B") (Some "B") (Some (fl 1)) in
  let f := {| name := "f"; lineno := 1; complexity := NInt 45 |} in
  let g := {| name := "g"; lineno := 5; complexity := NInt 3 |} in
  snd (find_infractions cc_rank args
         [("m1", BlockList [g; f]); ("m2", ErrorDict "bad"); ("m3", BlockList [f])])
  = [block_call "m1" f "F"; warn_call "m2" "bad"; block_call "m3" f "F";
     total_num_call (NFloat (fl 31)); total_rank_call "E";
     module_call "m1" "D"; module_call "m3" "F"].
Proof.
  intros args f g.
  destruct (find_infractions cc_rank args
              [("m1", BlockList [g; f]); ("m2", ErrorDict "bad"); ("m3", BlockList [f])])
    as [[n|e] log] eqn:Hrun; [|vm_compute in Hrun; discriminate Hrun].
  destruct (log_order cc_rank args _ n log Hrun) as (ign & Hb & Hlog).
  injection Hb as <-. simpl snd. rewrite Hlog. vm_compute. reflexivity.
Defined.

(** X8. The whole-codebase rank check.  In a run that returns, the rank is
    taken of the whole-codebase average (the sum of all scores over the
    number of all blocks, error dictionaries left out, and 0 without blocks);
    the call [average complexity is ranked <rank>] is logged, once, exactly
    when that rank passes [check] against [args.average], and it stands for
    one unit of the count. *)
Theorem total_rank_check (rk : pynum -> string) (args : Args) (results : ResultSet)
    (n : Z) (log : list LogCall) :
  find_infractions rk args results = (Ret n, log) ->
  let ar := rk (codebase_average results) in
  (check ar (average args) = true ->
   List.filter (has_fmt total_rank_fmt) log = [total_rank_call ar]) /\
  (check ar (average args) = false -> List.filter (has_fmt total_rank_fmt) log = []) /\
  PyFormat.message (total_rank_call ar) = Some ("average complexity is ranked " +:+ ar) /\
  n = len (List.filter (has_fmt total_rank_fmt) log)
      + len (List.filter (fun c => is_error c && negb (has_fmt total_rank_fmt c)) log).
Proof.
  intros Hrun ar.
  apply find_infractions_returns in Hrun as (ign & _ & _ & -> & ->).
  assert (Hsel : List.filter (has_fmt total_rank_fmt) (expected_calls rk ign args results)
                 = total_rank_calls rk args (codebase_average results))
    by (select_calls; reflexivity).
  rewrite Hsel. fold ar. unfold total_rank_calls. fold ar.
  split; [intros ->; reflexivity|]. split; [intros ->; reflexivity|].
  split; [apply total_rank_call_message|].
  change (if check ar (average args) then [total_rank_call ar] else [])
    with (total_rank_calls rk args (codebase_average results)).
  select_calls. unfold expected_count. rewrite !len_app. lia.
Qed.

Lemma total_rank_check_witness :
  let args := mkargs None None None (Some "c") None in
  let results :=
    [("m1", BlockList [{| name := "f"; lineno := 1; complexity := NInt 45 |}]);
     ("m2", BlockList [{| name := "g"; lineno := 1; complexity := NInt 1 |}])] in
  find_infractions cc_rank args results = (Ret 1, [total_rank_call "D"]) /\
  List.filter (has_fmt total_rank_fmt) [total_rank_call "D"] = [total_rank_call "D"].
Proof.
  intros args results.
  assert (Hrun : find_infractions cc_rank args results = (Ret 1, [total_rank_call "D"]))
    by (vm_compute; reflexivity).
  split; [exact Hrun|].
  destruct (total_rank_check cc_rank args results _ _ Hrun) as (Hyes & _).
  rewrite Hyes; reflexivity.
Defined.

(** ** The lists [build_blocks_to_ignore] builds *)

Lemma insert_append_lookup (acc : gmap string (list string)) (k v m : string) :
  default [] (<[k := default [] (acc !! k) ++ [v]]> acc !! m)
  = default [] (acc !! m) ++ (if String.eqb k m then [v] else []).
Proof.
  destruct (String.eqb_spec k m) as [->|Hne].
  - rewrite lookup_insert_eq. reflexivity.
  - rewrite lookup_insert_ne by assumption. rewrite app_nil_r. reflexivity.
Qed.

Lemma insert_append_none (acc : gmap string (list string)) (k v m : string) :
  <[k := default [] (acc !! k) ++ [v]]> acc !! m = None
  <-> acc !! m = None /\ String.eqb k m = false.
Proof.
  destruct (String.eqb_spec k m) as [->|Hne].
  - rewrite lookup_insert_eq. split; [discriminate|intros [_ H]; discriminate H].
  - rewrite lookup_insert_ne by assumption. tauto.
Qed.

Lemma ignore_entries_lists entries acc :
  Forall two_parts entries ->
  exists ign,
    for_each ignore_entry entries acc = ret ign /\
    forall m,
      default [] (ign !! m) = default [] (acc !! m) ++ entry_names m entries /\
      (ign !! m = None <-> acc !! m = None /\ entry_names m entries = []).
Proof.
  revert acc. induction entries as [|e entries IH]; intros acc Hall.
  - exists acc. split; [reflexivity|]. intros m. simpl. rewrite app_nil_r. tauto.
  - inversion Hall as [|? ? He Hrest]; subst.
    destruct (two_parts_inv e He) as (x & y & Hxy).
    simpl for_each. rewrite (ignore_entry_two_parts acc e x y Hxy), bind_ret_l.
    destruct (IH (<[PyStr.strip x := default [] (acc !! PyStr.strip x) ++ [PyStr.strip y]]> acc)
                Hrest) as (ign & Hrun & Hlist).
    exists ign. split; [exact Hrun|]. intros m.
    destruct (Hlist m) as [Hl Hn]. unfold entry_names at 1 2. simpl flat_map.
    fold (entry_names m entries). rewrite Hxy.
    rewrite Hl, Hn, insert_append_lookup, insert_append_none, <- app_assoc.
    split; [reflexivity|].
    destruct (String.eqb (PyStr.strip x) m); simpl.
    + split; [intros [[_ H] _]; discriminate H|intros [_ H]; discriminate H].
    + tauto.
Qed.

(** X9. The lists of the ignore map.  When every entry of a non-empty
    ignore specification has exactly one colon, the list kept under a module
    holds the stripped block names of the entries for that module, in the
    order of the entries and with their repetitions; a module has a key
    exactly when some entry is for it. *)
Theorem build_blocks_to_ignore_lists (args : Args) (s : string) :
  ignore_blocks args = Some s ->
  s <> "" ->
  Forall two_parts (PyStr.split "," s) ->
  exists ign,
    build_blocks_to_ignore args = ret ign /\
    forall m,
      default [] (ign !! m) = entry_names m (PyStr.split "," s) /\
      (ign !! m = None <-> entry_names m (PyStr.split "," s) = []).
Proof.
  intros Hs Hne Hall. unfold build_blocks_to_ignore.
  rewrite Hs, (truthy_nonempty s Hne). simpl.
  destruct (ignore_entries_lists (PyStr.split "," s) ∅ Hall) as (ign & Hrun & Hlist).
  exists ign. split; [exact Hrun|]. intros m.
  destruct (Hlist m) as [Hl Hn]. rewrite lookup_empty in Hl, Hn. simpl in Hl.
  split; [exact Hl|]. rewrite Hn. tauto.
Qed.

Lemma build_blocks_to_ignore_lists_witness :
  exists ign,
    build_blocks_to_ignore (mkargs (Some "m:g, m:f ,n:h,m:g") None None None None) = ret ign /\
    default [] (ign !! "m") = ["g"; "f"; "g"] /\
    ign !! "k" = None.
Proof.
  destruct (build_blocks_to_ignore_lists
              (mkargs (Some "m:g, m:f ,n:h,m:g") None None None None)
              "m:g, m:f ,n:h,m:g" eq_refl) as (ign & Hrun & Hlist).
  - discriminate.
  - repeat constructor.
  - exists ign. split; [exact Hrun|]. split.
    + rewrite (proj1 (Hlist "m")). reflexivity.
    + apply (proj2 (Hlist "k")). reflexivity.
Defined.

(** ** Stripped names *)

Lemma lstrip_shape s :
  PyStr.lstrip s = "" \/ exists c t, PyStr.lstrip s = String c t /\ PyStr.isspace c = false.
Proof.
  induction s as [|c s IH]; [left; reflexivity|].
  simpl. destruct (PyStr.isspace c) eqn:Hc; [exact IH|].
  right. exists c, s. auto.
Qed.

Lemma rstrip_cons c s :
  PyStr.rstrip (String c s)
  = match PyStr.rstrip s with
    | EmptyString => if PyStr.isspace c then EmptyString else String c EmptyString
    | r => String c r
    end.
Proof. reflexivity. Qed.

Lemma rstrip_idem s : PyStr.rstrip (PyStr.rstrip s) = PyStr.rstrip s.
Proof.
  induction s as [|c s IH]; [reflexivity|].
  rewrite rstrip_cons. destruct (PyStr.rstrip s) as [|d r] eqn:Hr.
  - destruct (PyStr.isspace c) eqn:Hc; [reflexivity|].
    rewrite rstrip_cons. simpl PyStr.rstrip at 1. rewrite Hc. reflexivity.
  - rewrite rstrip_cons, IH. reflexivity.
Qed.

Lemma rstrip_head c t :
  PyStr.isspace c = false -> exists r, PyStr.rstrip (String c t) = String c r.
Proof.
  intros Hc. rewrite rstrip_cons. destruct (PyStr.rstrip t) as [|d r].
  - rewrite Hc. eauto.
  - eauto.
Qed.

Lemma lstrip_id c t : PyStr.isspace c = false -> PyStr.lstrip (String c t) = String c t.
Proof. intros Hc. simpl. rewrite Hc. reflexivity. Qed.

Lemma strip_lstrip s : PyStr.lstrip (PyStr.strip s) = PyStr.strip s.
Proof.
  unfold PyStr.strip. destruct (lstrip_shape s) as [->|(c & t & -> & Hc)]; [reflexivity|].
  destruct (rstrip_head c t Hc) as (r & ->). apply lstrip_id. exact Hc.
Qed.

Lemma strip_idem s : PyStr.strip (PyStr.strip s) = PyStr.strip s.
Proof.
  unfold PyStr.strip at 1. rewrite strip_lstrip. unfold PyStr.strip. apply rstrip_idem.
Qed.

(** X10. The names in the ignore map are stripped: whatever the
    specification, a module with a key and a block name in a list have no
    white space at either end, so a block is silenced only under names
    written that way. *)
Theorem ignore_map_names_stripped (args : Args) (ign : gmap string (list string))
    (m b : string) :
  build_blocks_to_ignore args = ret ign ->
  In b (default [] (ign !! m)) ->
  PyStr.strip m = m /\ PyStr.strip b = b /\
  PyStr.lstrip m = m /\ PyStr.lstrip b = b.
Proof.
  intros Hb Hin.
  assert (Hnames : exists x y, m = PyStr.strip x /\ b = PyStr.strip y).
  { unfold build_blocks_to_ignore in Hb.
    destruct (ignore_blocks args) as [s|].
    - destruct s as [|c s'].
      + injection Hb as <-. rewrite lookup_empty in Hin. destruct Hin.
      + simpl negb in Hb. cbv iota in Hb.
        destruct (entries_cases (PyStr.split "," (String c s'))) as [Hall|Hex].
        * destruct (ignore_entries_run _ ∅ Hall) as (ign' & Hrun & Hmem).
          rewrite Hrun in Hb. injection Hb as <-.
          apply Hmem in Hin. rewrite lookup_empty in Hin.
          destruct Hin as [[]|(e & _ & x & y & _ & -> & ->)]. eauto.
        * rewrite (ignore_entries_raise _ ∅ Hex) in Hb. discriminate Hb.
    - injection Hb as <-. rewrite lookup_empty in Hin. destruct Hin. }
  destruct Hnames as (x & y & -> & ->).
  rewrite !strip_idem, !strip_lstrip. auto.
Qed.

Lemma ignore_map_names_stripped_witness :
  PyStr.strip "m1" = "m1" /\ PyStr.strip "f" = "f".
Proof.
  destruct (ignore_map_names_stripped
              (mkargs (Some "  m1 :	f ") None None None None)
              {["m1" := ["f"]]} "m1" "f") as (Hm & Hb & _).
  - vm_compute. reflexivity.
  - vm_compute. auto.
  - split; assumption.
Defined.

(** ** Ignore maps that agree on the blocks at hand *)

Lemma flat_map_ext_in {A B} (f g : A -> list B) (l : list A) :
  (forall x, In x l -> f x = g x) -> flat_map f l = flat_map g l.
Proof.
  induction l as [|x l IH]; intros H; [reflexivity|].
  simpl. rewrite (H x (or_introl eq_refl)), IH; [reflexivity|].
  intros y Hy. apply H. right. exact Hy.
Qed.

Lemma walked_incl results item : In item (walked results) -> In item results.
Proof.
  induction results as [|x results IH]; [intros []|].
  simpl. destruct (recognised x); [|intros []].
  intros [->|H]; [left; reflexivity|right; apply IH; exact H].
Qed.

Section Agreement.

Variable rk : pynum -> string.

Lemma module_calls_agree ign ign' args results item :
  agree_on results ign ign' ->
  In item results ->
  module_calls rk ign args item = module_calls rk ign' args item /\
  module_block_calls rk ign args item = module_block_calls rk ign' args item.
Proof.
  intros Hag Hin. destruct item as [m [bs|err]]; [|split; reflexivity].
  unfold module_calls, module_block_calls. simpl.
  assert (H : flat_map (block_calls rk ign args m) bs
              = flat_map (block_calls rk ign' args m) bs).
  { apply flat_map_ext_in. intros b Hb. unfold block_calls.
    rewrite (Hag m bs b Hin Hb). reflexivity. }
  rewrite H. split; reflexivity.
Qed.

End Agreement.

(** X11. Only the entries that name a block of the result set matter: two
    ignore maps that give the same answer for every (module, block name) of
    the result set give the same run, count and log alike.  Entries for other
    modules or other names change nothing. *)
Theorem ignore_entries_elsewhere (rk : pynum -> string) (args : Args) (results : ResultSet)
    (ign ign' : gmap string (list string)) :
  agree_on results ign ign' ->
  evaluate rk ign args results = evaluate rk ign' args results.
Proof.
  intros Hag. destruct (forallb recognised results) eqn:Hrec.
  - rewrite !evaluate_run by assumption.
    unfold expected_count, expected_calls.
    rewrite (flat_map_ext_in (module_calls rk ign args) (module_calls rk ign' args));
      [|intros item Hin; apply (module_calls_agree rk ign ign' args results item Hag Hin)].
    rewrite (flat_map_ext_in (module_block_calls rk ign args)
               (module_block_calls rk ign' args));
      [|intros item Hin; apply (module_calls_agree rk ign ign' args results item Hag Hin)].
    reflexivity.
  - rewrite !evaluate_raise by assumption. f_equal.
    apply flat_map_ext_in. intros item Hin.
    apply (module_calls_agree rk ign ign' args results item Hag).
    apply walked_incl. exact Hin.
Qed.

Lemma ignore_entries_elsewhere_witness :
  let args := mkargs None (Some "A") None None None in
  let results := [("m1", BlockList [{| name := "f"; lineno := 1; complexity := NInt 45 |}])] in
  evaluate cc_rank {["m2" := ["f"]; "m1" := ["g"]]} args results
  = evaluate cc_rank ∅ args results.
Proof.
  intros args results. apply ignore_entries_elsewhere.
  intros m bs b [Heq|[]] Hb. injection Heq as <- <-.
  destruct Hb as [<-|[]]. reflexivity.
Defined.

(** ** Relaxing the ceilings *)

Lemma flat_map_len_le {A B} (f g : A -> list B) (l : list A) :
  (forall x, len (f x) <= len (g x)) -> len (flat_map f l) <= len (flat_map g l).
Proof.
  intros H. induction l as [|x l IH]; [unfold len; simpl; lia|].
  simpl. rewrite !len_app. specialize (H x). lia.
Qed.

Lemma check_laxer r c c' : laxer c c' -> check r c' = true -> check r c = true.
Proof.
  unfold laxer, check. destruct c' as [b|]; [|discriminate].
  destruct c as [a|]; [|intros []].
  intros Hle Hgt. apply (gt_le_trans _ (PyStr.upper b)); [exact Hgt|].
  destruct (decide (String.le (PyStr.upper a) (PyStr.upper b))) as [Hd|Hd]; [exact Hd|].
  apply gt_not_le in Hd. congruence.
Qed.

Lemma len_if_le {A} (b b' : bool) (x : A) :
  (b' = true -> b = true) ->
  len (if b' then [x] else []) <= len (if b then [x] else []).
Proof.
  intros H. destruct b'; [rewrite (H eq_refl); lia|].
  destruct b; unfold len; simpl; lia.
Qed.

Section Relax.

Variable rk : pynum -> string.
Variables args args' : Args.
Hypothesis Habs : laxer (absolute args) (absolute args').
Hypothesis Hmod : laxer (modules args) (modules args').
Hypothesis Havg : laxer (average args) (average args').
Hypothesis Hnum : laxer_num (averagenum args) (averagenum args').

Lemma block_calls_relaxed ign m b :
  len (block_calls rk ign args' m b) <= len (block_calls rk ign args m b).
Proof.
  unfold block_calls. apply len_if_le. intros H.
  apply andb_prop in H as [Hc Hm].
  rewrite (check_laxer _ _ _ Habs Hc), Hm. reflexivity.
Qed.

Lemma module_block_calls_relaxed ign results :
  len (flat_map (module_block_calls rk ign args') results)
  <= len (flat_map (module_block_calls rk ign args) results).
Proof.
  apply flat_map_len_le. intros item. unfold module_block_calls.
  destruct (snd item) as [bs|err]; [|lia].
  apply flat_map_len_le. intros b. apply block_calls_relaxed.
Qed.

Lemma average_calls_relaxed mas :
  len (flat_map (average_calls rk args') mas) <= len (flat_map (average_calls rk args) mas).
Proof.
  apply flat_map_len_le. intros item. unfold average_calls.
  apply len_if_le. apply check_laxer. exact Hmod.
Qed.

Lemma total_rank_calls_relaxed a :
  len (total_rank_calls rk args' a) <= len (total_rank_calls rk args a).
Proof. unfold total_rank_calls. apply len_if_le. apply check_laxer. exact Havg. Qed.

Lemma total_num_calls_relaxed n m :
  len (total_num_calls args' (av_value n m)) <= len (total_num_calls args (av_value n m)).
Proof.
  unfold total_num_calls, laxer_num in *.
  destruct (averagenum args') as [c'|]; [|apply len_nonneg].
  destruct (averagenum args) as [c|]; [|destruct Hnum].
  apply len_if_le. rewrite !num_gt_av_value. apply SFleb_ltb_trans. exact Hnum.
Qed.

Lemma expected_count_relaxed ign results :
  expected_count rk ign args' results <= expected_count rk ign args results.
Proof.
  unfold expected_count.
  pose proof (module_block_calls_relaxed ign results).
  pose proof (average_calls_relaxed (flat_map module_average results)).
  pose proof (total_rank_calls_relaxed (codebase_average results)).
  pose proof (total_num_calls_relaxed (codebase_cc results) (codebase_blocks results)).
  fold (codebase_average results) in *.
  lia.
Qed.

End Relax.

Lemma build_same_spec args args' :
  ignore_blocks args' = ignore_blocks args ->
  build_blocks_to_ignore args' = build_blocks_to_ignore args.
Proof. intros H. unfold build_blocks_to_ignore. rewrite H. reflexivity. Qed.

(** X12. Relaxing the ceilings never adds an infraction.  Take two argument
    sets with the same ignore specification, the second with each ceiling
    unset or not below the first's (rank ceilings compared upper-cased).  If
    the run with the first returns a count, the run with the second returns a
    count that is not larger. *)
Theorem relaxed_ceilings_fewer_infractions (rk : pynum -> string) (args args' : Args)
    (results : ResultSet) (n : Z) (log : list LogCall) :
  ignore_blocks args' = ignore_blocks args ->
  laxer (absolute args) (absolute args') ->
  laxer (modules args) (modules args') ->
  laxer (average args) (average args') ->
  laxer_num (averagenum args) (averagenum args') ->
  find_infractions rk args results = (Ret n, log) ->
  exists n' log', find_infractions rk args' results = (Ret n', log') /\ n' <= n.
Proof.
  intros Hspec Habs Hmod Havg Hnum Hrun.
  apply find_infractions_returns in Hrun as (ign & Hb & Hrec & -> & _).
  rewrite <- (build_same_spec args args' Hspec) in Hb.
  eexists _, _. split; [apply (find_infractions_run rk args' results ign Hb Hrec)|].
  apply expected_count_relaxed; assumption.
Qed.

Lemma relaxed_ceilings_fewer_infractions_witness :
  let f := {| name := "f"; lineno := 1; complexity := NInt 25 |} in
  let results := [("m1", BlockList [f])] in
  exists n' log',
    find_infractions cc_rank (mkargs None (Some "d") None (Some "C") (Some (fl 30))) results
    = (Ret n', log') /\ n' <= 4.
Proof.
  intros f results.
  apply (relaxed_ceilings_fewer_infractions cc_rank
           (mkargs None (Some "B") (Some "A") (Some "c") (Some (fl 20)))
           (mkargs None (Some "d") None (Some "C") (Some (fl 30)))
           results 4
           [block_call "m1" f "D"; total_num_call (NFloat (fl 25)); total_rank_call "D"; module_call "m1" "D"]).
  - reflexivity.
  - reflexivity.
  - exact I.
  - reflexivity.
  - vm_compute. reflexivity.
  - vm_compute. reflexivity.
Defined.

(** ** Leaving the error dictionaries out *)

Lemma filter_block_lists_flat_map {B} (f : string * ModuleResult -> list B) results :
  (forall item, is_block_list item = false -> f item = []) ->
  flat_map f (List.filter is_block_list results) = flat_map f results.
Proof.
  intros H. induction results as [|item results IH]; [reflexivity|].
  simpl. destruct (is_block_list item) eqn:Hi; simpl.
  - rewrite IH. reflexivity.
  - rewrite (H item Hi), IH. reflexivity.
Qed.

Lemma filter_block_lists_fold {T} (f : T -> string * ModuleResult -> T) results t :
  (forall t item, is_block_list item = false -> f t item = t) ->
  fold_left f (List.filter is_block_list results) t = fold_left f results t.
Proof.
  intros H. revert t. induction results as [|item results IH]; intros t; [reflexivity|].
  simpl. destruct (is_block_list item) eqn:Hi; simpl.
  - apply IH.
  - rewrite (H t item Hi). apply IH.
Qed.

Lemma block_lists_recognised results :
  forallb recognised (List.filter is_block_list results) = true.
Proof.
  induction results as [|item results IH]; [reflexivity|].
  simpl. destruct (is_block_list item) eqn:Hi; [|exact IH].
  simpl. rewrite IH. unfold is_block_list in Hi. unfold recognised.
  destruct (snd item); [reflexivity|discriminate].
Qed.

Lemma codebase_average_block_lists results :
  codebase_average (List.filter is_block_list results) = codebase_average results.
Proof.
  unfold codebase_average, codebase_cc, codebase_blocks.
  rewrite !filter_block_lists_fold; [reflexivity| |];
    intros t item Hi; unfold is_block_list in Hi;
    unfold add_blocks, add_cc; destruct (snd item); (discriminate || reflexivity).
Qed.

(** X13. An error dictionary the program recognises adds its warning and
    nothing else: the run on the result set without its error dictionaries
    returns the same count, and its log is the log of the full run without
    the warnings. *)
Theorem error_dicts_only_warn (rk : pynum -> string) (args : Args) (results : ResultSet)
    (n : Z) (log : list LogCall) :
  find_infractions rk args results = (Ret n, log) ->
  find_infractions rk args (List.filter is_block_list results)
  = (Ret n, List.filter is_error log).
Proof.
  intros Hrun.
  apply find_infractions_returns in Hrun as (ign & Hb & _ & -> & ->).
  rewrite (find_infractions_run rk args _ ign Hb (block_lists_recognised results)).
  assert (Hmb : flat_map (module_block_calls rk ign args) (List.filter is_block_list results)
                = flat_map (module_block_calls rk ign args) results).
  { apply filter_block_lists_flat_map. intros item Hi.
    unfold is_block_list in Hi. unfold module_block_calls.
    destruct (snd item); [discriminate|reflexivity]. }
  assert (Hma : flat_map module_average (List.filter is_block_list results)
                = flat_map module_average results).
  { apply filter_block_lists_flat_map. intros item Hi.
    unfold is_block_list in Hi. unfold module_average.
    destruct (snd item); [discriminate|reflexivity]. }
  assert (Hmc : flat_map (module_calls rk ign args) (List.filter is_block_list results)
                = flat_map (module_block_calls rk ign args) results).
  { rewrite <- Hmb. apply flat_map_ext_in. intros item Hin.
    apply List.filter_In in Hin as [_ Hi]. unfold is_block_list in Hi.
    unfold module_calls, module_block_calls. destruct (snd item); [reflexivity|discriminate]. }
  f_equal.
  - unfold expected_count. rewrite Hmb, Hma, codebase_average_block_lists. reflexivity.
  - select_calls. unfold expected_calls.
    rewrite Hmc, Hma, codebase_average_block_lists. reflexivity.
Qed.

Lemma error_dicts_only_warn_witness :
  let args := mkargs None (Some "B") (Some "B") (Some "B") (Some (fl 1)) in
  let f := {| name := "f"; lineno := 1; complexity := NInt 45 |} in
  find_infractions cc_rank args [("m1", BlockList [f])]
  = (Ret 4, [block_call "m1" f "F"; total_num_call (NFloat (fl 45)); total_rank_call "F";
             module_call "m1" "F"]).
Proof.
  intros args f.
  exact (error_dicts_only_warn cc_rank args
           [("m0", ErrorDict "bad"); ("m1", BlockList [f]); ("m2", ErrorDict "worse")]
           4 [warn_call "m0" "bad"; block_call "m1" f "F"; warn_call "m2" "worse";
              total_num_call (NFloat (fl 45)); total_rank_call "F"; module_call "m1" "F"]
           eq_refl).
Defined.

(** ** [analyze] *)

(** X14. [analyze] hands the harvested result set to [find_infractions] and
    gives it back unchanged beside the count, with the same log; it ends with
    the ValueError of a malformed ignore specification, and nothing logged,
    whatever the harvester found, and with the TypeError of an error
    dictionary with an empty text.  The harvester is always asked for the
    ranks A to F without closures, whatever the ceilings. *)
Theorem analyze_outcome (rk : pynum -> string) (to_dicts : list string -> Config -> ResultSet)
    (args : CliArgs) :
  let results :=
    to_dicts (path args)
      {| cfg_exclude := exclude args; cfg_ignore := ignore args;
         cfg_no_assert := no_assert args; cfg_show_closures := false;
         cfg_min := "A"; cfg_max := "F" |} in
  snd (analyze rk to_dicts args) = snd (find_infractions rk (thresholds args) results) /\
  (forall n, fst (find_infractions rk (thresholds args) results) = Ret n ->
             fst (analyze rk to_dicts args) = Ret (n, results)) /\
  (forall e, fst (find_infractions rk (thresholds args) results) = Raise e ->
             fst (analyze rk to_dicts args) = Raise e) /\
  (malformed (thresholds args) -> analyze rk to_dicts args = (Raise ValueError, [])) /\
  (~ malformed (thresholds args) -> forallb recognised results = false ->
   fst (analyze rk to_dicts args) = Raise TypeError).
Proof.
  intros results. unfold analyze. fold results.
  destruct (find_infractions rk (thresholds args) results) as [[n|e] log] eqn:Hrun.
  - rewrite bind_run. simpl. rewrite app_nil_r.
    split; [reflexivity|]. split; [intros n' H; injection H as <-; reflexivity|].
    split; [intros e H; discriminate H|].
    pose proof (find_infractions_returns rk _ _ _ _ Hrun) as (ign & Hb & Hrec & _).
    split.
    + intros Hbad. destruct (build_cases (thresholds args)) as [(i & _ & Hok)|[_ Hb']];
        [contradiction|rewrite Hb' in Hb; discriminate Hb].
    + intros _ H. rewrite Hrec in H. discriminate H.
  - rewrite bind_raise. simpl.
    split; [reflexivity|]. split; [intros n' H; discriminate H|].
    split; [intros e' H; injection H as <-; reflexivity|].
    split.
    + intros Hbad. destruct (build_cases (thresholds args)) as [(i & _ & Hok)|[_ Hb']];
        [contradiction|].
      rewrite (find_infractions_unbuilt rk _ results ValueError) in Hrun
        by (rewrite Hb'; reflexivity).
      injection Hrun as <- <-. reflexivity.
    + intros Hok Hrec.
      destruct (build_cases (thresholds args)) as [(i & Hb & _)|[Hbad _]]; [|contradiction].
      rewrite (find_infractions_built rk _ results i Hb) in Hrun.
      rewrite evaluate_raise in Hrun by assumption. injection Hrun as <- _. reflexivity.
Qed.

Lemma analyze_outcome_witness :
  let args := {| path := ["src"]; exclude := None; ignore := None; no_assert := false;
                 thresholds := mkargs (Some "m1-no-colon") (Some "A") None None None |} in
  analyze cc_rank (fun _ _ => [("m1", BlockList [])]) args = (Raise ValueError, []).
Proof.
  intros args.
  apply (analyze_outcome cc_rank (fun _ _ => [("m1", BlockList [])]) args).
  exists "m1-no-colon". split; [reflexivity|]. split; [discriminate|].
  left. vm_compute. discriminate.
Defined.

(** ** The calls the logger receives *)

Section ProgramCalls.

Variable rk : pynum -> string.

Lemma Forall_if {A} (P : A -> Prop) (b : bool) (x : A) :
  P x -> Forall P (if b then [x] else []).
Proof. intros H. destruct b; [constructor; [exact H|constructor]|constructor]. Qed.

Lemma module_calls_program ign args results :
  Forall program_call (flat_map (module_calls rk ign args) results).
Proof.
  apply Forall_flat_map_all. intros item. unfold module_calls.
  destruct (snd item) as [bs|err].
  - apply Forall_flat_map_all. intros b. unfold block_calls.
    apply Forall_if. right. left. eauto.
  - apply (Forall_if program_call true). left. eauto.
Qed.

Lemma expected_calls_program ign args results :
  Forall program_call (expected_calls rk ign args results).
Proof.
  unfold expected_calls. rewrite !Forall_app.
  split; [apply module_calls_program|]. split; [|split].
  - unfold total_num_calls. destruct (averagenum args) as [c|]; [|constructor].
    apply Forall_if. right. right. left. eauto.
  - unfold total_rank_calls. apply Forall_if. right. right. right. left. eauto.
  - apply Forall_flat_map_all. intros item. unfold average_calls.
    apply Forall_if. right. right. right. right. eauto.
Qed.

Lemma run_calls_program args results :
  Forall program_call (snd (find_infractions rk args results)).
Proof.
  destruct (build_cases args) as [(ign & Hb & _)|[_ Hb]].
  - rewrite (find_infractions_built rk args results ign Hb).
    destruct (forallb recognised results) eqn:Hrec.
    + rewrite evaluate_run by assumption. apply expected_calls_program.
    + rewrite evaluate_raise by assumption. apply module_calls_program.
  - rewrite (find_infractions_unbuilt rk args results ValueError) by (rewrite Hb; reflexivity).
    constructor.
Qed.

End ProgramCalls.

(** X15. Whatever the run and however it ends, every call it makes on the
    logger is one of the program's five calls, and each of them has a
    message: the format strings and the arguments match, so the logger never
    meets a formatting error on them. *)
Theorem logger_calls_render (rk : pynum -> string) (args : Args) (results : ResultSet)
    (c : LogCall) :
  In c (snd (find_infractions rk args results)) ->
  program_call c /\
  (exists s, PyFormat.message c = Some s).
Proof.
  intros Hin.
  pose proof (run_calls_program rk args results) as Hall.
  rewrite List.Forall_forall in Hall. specialize (Hall c Hin).
  split; [exact Hall|].
  destruct Hall as [(m & e & ->)|[(m & b & r & ->)|[(a & ->)|[(r & ->)|(m & r & ->)]]]].
  - rewrite warn_call_message. eauto.
  - rewrite block_call_message. eauto.
  - rewrite total_num_call_message. eauto.
  - rewrite total_rank_call_message. eauto.
  - rewrite module_call_message. eauto.
Qed.

Lemma logger_calls_render_witness :
  exists s, PyFormat.message (total_num_call (NFloat (fl 45))) = Some s.
Proof.
  refine (proj2 (logger_calls_render cc_rank
                   (mkargs None None None None (Some (fl 10)))
                   [("m1", BlockList [{| name := "f"; lineno := 1; complexity := NInt 45 |}])]
                   (total_num_call (NFloat (fl 45))) _)).
  vm_compute. left. reflexivity.
Defined.

(** ** The first loop *)

(** X16. An error dictionary with a non-empty text is reported and skipped:
    its iteration of the first loop makes the one call
    [cannot parse <module>: <text>] at warning level and leaves the count,
    the recorded averages and the two totals as they were. *)
Theorem error_dict_reported_and_skipped (rk : pynum -> string)
    (ign : gmap string (list string)) (args : Args) (st : LoopState) (m err : string) :
  err <> "" ->
  module_body rk ign args st (m, ErrorDict err) = (Ret st, [warn_call m err]) /\
  lvl (warn_call m err) = WARNING /\
  PyFormat.message (warn_call m err) = Some ("cannot parse " +:+ m +:+ ": " +:+ err).
Proof.
  intros Hne. split; [|split].
  - apply error_dict_skipped. apply truthy_nonempty. exact Hne.
  - reflexivity.
  - apply warn_call_message.
Qed.

Lemma error_dict_reported_and_skipped_witness :
  module_body cc_rank ∅ (mkargs None (Some "A") (Some "A") (Some "A") None)
    init_state ("m1", ErrorDict "SyntaxError")
  = (Ret init_state, [warn_call "m1" "SyntaxError"]).
Proof.
  apply (error_dict_reported_and_skipped cc_rank ∅ _ init_state "m1" "SyntaxError").
  discriminate.
Defined.

Lemma fold_add_blocks_len results t :
  fold_left add_blocks results t = t + len (flat_map blocks_of results).
Proof.
  revert t. induction results as [|item results IH]; intros t.
  - unfold len. simpl. lia.
  - simpl. rewrite IH, len_app. unfold add_blocks, blocks_of.
    destruct (snd item); [lia|]. unfold len. simpl. lia.
Qed.

Lemma module_average_members results m a :
  In (m, a) (flat_map module_average results)
  <-> exists bs, In (m, BlockList bs) results /\ a = av_value (module_cc_of bs) (len bs).
Proof.
  induction results as [|[m' [bs'|err]] results IH]; simpl.
  - split; [intros []|intros (bs & [] & _)].
  - unfold module_average at 1. simpl. rewrite IH. split.
    + intros [Heq|(bs & Hin & Ha)].
      * injection Heq as <- <-. exists bs'. auto.
      * exists bs. auto.
    + intros (bs & [Heq|Hin] & Ha).
      * injection Heq as <- <-. left. rewrite Ha. reflexivity.
      * right. exists bs. auto.
  - unfold module_average at 1. simpl. rewrite IH. split.
    + intros (bs & Hin & Ha). exists bs. auto.
    + intros (bs & [Heq|Hin] & Ha); [discriminate Heq|]. exists bs. auto.
Qed.

Lemma module_average_names results :
  map fst (flat_map module_average results) = map fst (List.filter is_block_list results).
Proof.
  induction results as [|[m [bs|err]] results IH]; [reflexivity| |].
  - change (m :: map fst (flat_map module_average results)
            = m :: map fst (List.filter is_block_list results)).
    rewrite IH. reflexivity.
  - exact IH.
Qed.

(** X17. What the first loop leaves when it gets through every module: one
    recorded average per module with a block list, in the order of the
    result set, each the module's score total over its number of blocks (0
    without blocks); the block total is the number of all blocks; and the
    count so far is the number of block calls logged. *)
Theorem first_loop_summary (rk : pynum -> string) (ign : gmap string (list string))
    (args : Args) (results : ResultSet) :
  forallb recognised results = true ->
  exists st log,
    for_each (module_body rk ign args) results init_state = (Ret st, log) /\
    map fst (module_averages st) = map fst (List.filter is_block_list results) /\
    (forall m a,
        In (m, a) (module_averages st)
        <-> exists bs, In (m, BlockList bs) results
                       /\ a = av_value (module_cc_of bs) (len bs)) /\
    total_blocks st = len (flat_map blocks_of results) /\
    total_cc st = codebase_cc results /\
    infractions st = len (List.filter (has_fmt block_fmt) log) /\
    List.filter is_error log = List.filter (has_fmt block_fmt) log.
Proof.
  intros Hrec. eexists _, _.
  split; [apply (modules_loop rk ign args results init_state Hrec)|].
  simpl. split; [apply module_average_names|].
  split; [apply module_average_members|].
  split; [apply (fold_add_blocks_len results 0)|].
  split; [reflexivity|].
  assert (Hsel : forall q,
             List.filter (sel q) (flat_map (module_calls rk ign args) results)
             = flat_map (fun item =>
                 (if q block_fmt ERROR then module_block_calls rk ign args item else [])
                 ++ (if q warn_fmt WARNING then module_warnings item else [])) results).
  { intros q. rewrite filter_flat_map. apply flat_map_ext. intros item.
    apply filter_module_calls. }
  rewrite filter_sel_has_fmt, filter_sel_is_error, !Hsel. simpl.
  rewrite flat_map_app_nil_r. split; reflexivity.
Qed.

Lemma first_loop_summary_witness :
  let f := {| name := "f"; lineno := 1; complexity := NInt 45 |} in
  let g := {| name := "g"; lineno := 5; complexity := NInt 3 |} in
  exists st log,
    for_each (module_body cc_rank ∅ (mkargs None (Some "B") None None None))
      [("m1", BlockList [g; f]); ("m2", ErrorDict "bad"); ("m3", BlockList [])] init_state
    = (Ret st, log) /\
    map fst (module_averages st) = ["m1"; "m3"] /\
    total_blocks st = 2 /\ infractions st = 1.
Proof.
  intros f g.
  destruct (first_loop_summary cc_rank ∅ (mkargs None (Some "B") None None None)
              [("m1", BlockList [g; f]); ("m2", ErrorDict "bad"); ("m3", BlockList [])]
              eq_refl) as (st & log & Hrun & Hnames & _ & Hblocks & _ & Hcount & _).
  exists st, log. split; [exact Hrun|]. split; [exact Hnames|]. split; [exact Hblocks|].
  rewrite Hcount.
  assert (H : snd (for_each (module_body cc_rank ∅ (mkargs None (Some "B") None None None))
                     [("m1", BlockList [g; f]); ("m2", ErrorDict "bad"); ("m3", BlockList [])]
                     init_state)
              = [block_call "m1" f "F"; warn_call "m2" "bad"]) by (vm_compute; reflexivity).
  rewrite Hrun in H. simpl in H. rewrite H. reflexivity.
Defined.
